(** * neural_clbf: obstacle-aware MPC controller and Quad2D obstacle data module

  A shallow embedding of
    - [neural_clbf/experiments/quad2d_obstacles/data_generation.py]
      ([safe_mask_fn], [unsafe_mask_fn], [Quad2DObstaclesDataModule]) and
    - [neural_clbf/controllers/obs_mpc_controller.py] ([ObsMPCController.u]),
  together with the properties stated about them.

  Conventions.
    - A floating point number is taken by its rational value ([Q]); a 1-d
      tensor is a [list Q], a 2-d tensor a list of rows.  The product
      [self.N * self.split] of [setup] is rounded to the nearest double, as
      Python computes it, since the split point depends on that rounding.
      The single-precision arithmetic of [prepare_data] is a parameter
      ([rescale]).  The comparisons of the mask functions and the arithmetic
      of the controller are taken exactly on the rational values, with the
      thresholds as the decimal literals of the source.
    - An index that Python or PyTorch rejects with an [IndexError], a failed
      [assert] and a shape mismatch make the embedded function return [None].
    - What the two files call but do not define is a parameter: the dynamics
      model ([ObservableSystem]), the convex solver behind [prob.solve()],
      [np.cos] and [np.sin], the random source, the tensor arithmetic of
      PyTorch, and [Quad2D.N_DIMS].
      Exceptions raised inside those collaborators are not modelled.
    - The controller is embedded in a small monad that threads the list of
      collaborator calls made so far, so that statements can speak of the
      programs handed to the solver and of the state handed to the nominal
      controller. *)

From Stdlib Require Import QArith Qminmax Qround Lqa Lia ZArith.
From Stdlib Require Import Reals Qreals Lra.
From stdpp Require Import base option list strings.

Open Scope Q_scope.

(** Linear and non-linear arithmetic over [Q] (the real-number versions
    loaded above would otherwise shadow them). *)
Ltac qlra := Lqa.lra.
Ltac qnra := Lqa.nra.

(** ** Tensors *)

Module Tensor.

Abbreviation tensor1 := (list Q).
Abbreviation tensor2 := (list (list Q)).
Abbreviation mask := (list bool).

(** [x[:, j]]: column [j] of a 2-d tensor; an [IndexError] when a row has
    no component [j]. *)
Definition column (j : nat) (x : tensor2) : option tensor1 :=
  mapM (λ row : list Q, row !! j) x.

(** [torch.ones_like(v, dtype=torch.bool)], [torch.zeros_like(...)]. *)
Definition ones_like (v : tensor1) : mask := replicate (length v) true.
Definition zeros_like (v : tensor1) : mask := replicate (length v) false.

(** [v >= c] and [v <= c] against a Python scalar. *)
Definition ge_scalar (v : tensor1) (c : Q) : mask := (λ a, Qle_bool c a) <$> v.
Definition le_scalar (v : tensor1) (c : Q) : mask := (λ a, Qle_bool a c) <$> v.

(** [torch.logical_and], [torch.logical_or] (and their in-place forms, whose
    result rebinds the mask). *)
Definition logical_and (a b : mask) : mask := zip_with andb a b.
Definition logical_or (a b : mask) : mask := zip_with orb a b.

(** Squared Euclidean norm of one row.  [x.norm(dim=-1)] is its square
    root, which is irrational in general; the two comparisons the source
    makes against a non-negative constant are expressed on the squares
    (see [norm_le_row_real] and [norm_ge_row_real] for the link with the
    real square root). *)
Definition sum_squares (row : list Q) : Q :=
  foldr (λ a acc, a * a + acc) 0 row.

Definition norm_le_row (row : list Q) (c : Q) : bool :=
  Qle_bool (sum_squares row) (c * c).
Definition norm_ge_row (row : list Q) (c : Q) : bool :=
  Qle_bool (c * c) (sum_squares row).

(** [x.norm(dim=-1) <= c] and [x.norm(dim=-1) >= c], for [0 <= c]. *)
Definition norm_le (x : tensor2) (c : Q) : mask := (λ row, norm_le_row row c) <$> x.
Definition norm_ge (x : tensor2) (c : Q) : mask := (λ row, norm_ge_row row c) <$> x.


End Tensor.

(** ** [data_generation.py]: the static safe / unsafe predicates *)

Module DataGeneration.
Import Tensor.

(** Return the mask of x indicating safe regions for the obstacle task. *)
Definition safe_mask_fn (x : tensor2) : option mask :=
  x0 ← column 0 x;
  let safe_mask := ones_like x0 in
  (* We have a floor that we need to avoid *)
  let safe_z := -0.1 in
  x1 ← column 1 x;
  let floor_mask := ge_scalar x1 safe_z in
  let safe_mask := logical_and safe_mask floor_mask in
  (* We also have a block obstacle to the left at ground level *)
  let '(obs1_min_x, obs1_max_x) := (-1.1, -0.4) in
  let '(obs1_min_z, obs1_max_z) := (-0.5, 0.6) in
  let obs1_mask_x := logical_or (le_scalar x0 obs1_min_x) (ge_scalar x0 obs1_max_x) in
  let obs1_mask_z := logical_or (le_scalar x1 obs1_min_z) (ge_scalar x1 obs1_max_z) in
  let obs1_mask := logical_or obs1_mask_x obs1_mask_z in
  let safe_mask := logical_and safe_mask obs1_mask in
  (* We also have a block obstacle to the right in the air *)
  let '(obs2_min_x, obs2_max_x) := (-0.1, 1.1) in
  let '(obs2_min_z, obs2_max_z) := (0.7, 1.5) in
  let obs2_mask_x := logical_or (le_scalar x0 obs2_min_x) (ge_scalar x0 obs2_max_x) in
  let obs2_mask_z := logical_or (le_scalar x1 obs2_min_z) (ge_scalar x1 obs2_max_z) in
  let obs2_mask := logical_or obs2_mask_x obs2_mask_z in
  let safe_mask := logical_and safe_mask obs2_mask in
  (* Also constrain to be within a norm bound *)
  let norm_mask := norm_le x 4.5 in
  let safe_mask := logical_and safe_mask norm_mask in
  Some safe_mask.

(** Return the mask of x indicating unsafe regions for the obstacle task. *)
Definition unsafe_mask_fn (x : tensor2) : option mask :=
  x0 ← column 0 x;
  let unsafe_mask := zeros_like x0 in
  (* We have a floor that we need to avoid *)
  let unsafe_z := -0.3 in
  x1 ← column 1 x;
  let floor_mask := le_scalar x1 unsafe_z in
  let unsafe_mask := logical_or unsafe_mask floor_mask in
  (* We also have a block obstacle to the left at ground level *)
  let '(obs1_min_x, obs1_max_x) := (-1.0, -0.5) in
  let '(obs1_min_z, obs1_max_z) := (-0.4, 0.5) in
  let obs1_mask_x := logical_and (ge_scalar x0 obs1_min_x) (le_scalar x0 obs1_max_x) in
  let obs1_mask_z := logical_and (ge_scalar x1 obs1_min_z) (le_scalar x1 obs1_max_z) in
  let obs1_mask := logical_and obs1_mask_x obs1_mask_z in
  let unsafe_mask := logical_or unsafe_mask obs1_mask in
  (* We also have a block obstacle to the right in the air *)
  let '(obs2_min_x, obs2_max_x) := (0.0, 1.0) in
  let '(obs2_min_z, obs2_max_z) := (0.8, 1.4) in
  let obs2_mask_x := logical_and (ge_scalar x0 obs2_min_x) (le_scalar x0 obs2_max_x) in
  let obs2_mask_z := logical_and (ge_scalar x1 obs2_min_z) (le_scalar x1 obs2_max_z) in
  let obs2_mask := logical_and obs2_mask_x obs2_mask_z in
  let unsafe_mask := logical_or unsafe_mask obs2_mask in
  (* Also constrain with a norm bound *)
  let norm_mask := norm_ge x 5.0 in
  let unsafe_mask := logical_or unsafe_mask norm_mask in
  Some unsafe_mask.

(** *** The individual conditions, per point

    These are the element-wise readings of the intermediate masks above:
    [px] is [x[i, 0]], [pz] is [x[i, 1]] and [row] is [x[i, :]]. *)

Definition safe_floor (pz : Q) : bool := Qle_bool (-0.1) pz.
Definition safe_obs1 (px pz : Q) : bool :=
  (Qle_bool px (-1.1) || Qle_bool (-0.4) px) || (Qle_bool pz (-0.5) || Qle_bool 0.6 pz).
Definition safe_obs2 (px pz : Q) : bool :=
  (Qle_bool px (-0.1) || Qle_bool 1.1 px) || (Qle_bool pz 0.7 || Qle_bool 1.5 pz).
Definition safe_norm (row : list Q) : bool := norm_le_row row 4.5.

Definition safe_point (px pz : Q) (row : list Q) : bool :=
  (((true && safe_floor pz) && safe_obs1 px pz) && safe_obs2 px pz) && safe_norm row.

Definition unsafe_floor (pz : Q) : bool := Qle_bool pz (-0.3).
Definition unsafe_obs1 (px pz : Q) : bool :=
  (Qle_bool (-1.0) px && Qle_bool px (-0.5)) && (Qle_bool (-0.4) pz && Qle_bool pz 0.5).
Definition unsafe_obs2 (px pz : Q) : bool :=
  (Qle_bool 0.0 px && Qle_bool px 1.0) && (Qle_bool 0.8 pz && Qle_bool pz 1.4).
Definition unsafe_norm (row : list Q) : bool := norm_ge_row row 5.0.

Definition unsafe_point (px pz : Q) (row : list Q) : bool :=
  (((false || unsafe_floor pz) || unsafe_obs1 px pz) || unsafe_obs2 px pz) || unsafe_norm row.

End DataGeneration.

(** ** Python integers and slices *)

Module Py.

(** [int(q)] on a float: truncation toward zero. *)
Definition int (q : Q) : Z := Z.quot (Qnum q) (Zpos (Qden q)).

(** [2 ** e]. *)
Definition pow2 (e : Z) : Q :=
  if (0 <=? e)%Z then inject_Z (2 ^ e) else / inject_Z (2 ^ (- e)).

(** The nearest integer, a tie going to the even one. *)
Definition round_half_even (q : Q) : Z :=
  let f := Qfloor q in
  match Qcompare (q - inject_Z f) (1 # 2) with
  | Lt => f
  | Gt => (f + 1)%Z
  | Eq => if Z.even f then f else (f + 1)%Z
  end.

(** For [0 < x]: the exponent [b] with [2 ** b <= x < 2 ** (b + 1)]. *)
Definition binade (x : Q) : Z :=
  if Qle_bool 1 x then Z.log2 (Qfloor x) else (- Z.log2_up (Qceiling (/ x)))%Z.

(** The exponent of the unit in the last place of the doubles around
    [0 < x]: 53 significant bits, and [2 ** -1074] in the subnormal range. *)
Definition ulp_exponent (x : Q) : Z := Z.max (binade x - 52) (-1074).

(** The double nearest to [0 < x]. *)
Definition round_pos (x : Q) : Q :=
  let e := ulp_exponent x in
  inject_Z (round_half_even (x / pow2 e)) * pow2 e.

(** The double nearest to [x], a tie going to the even significand.  A
    Python float is a double, taken here by its rational value; a result
    beyond the largest double (an infinity) is not represented. *)
Definition float_round (x : Q) : Q :=
  match Qcompare x 0 with
  | Eq => 0
  | Gt => round_pos x
  | Lt => - round_pos (- x)
  end.

(** [float(n)], as in the product of an [int] and a [float], and the product
    of two floats. *)
Definition float_of_int (n : Z) : Q := float_round (inject_Z n).
Definition float_mul (a b : Q) : Q := float_round (a * b).
(** The position a slice bound [k] denotes in a sequence of length [len]:
    negative bounds count from the end, and every bound is clipped to
    [0 .. len]. *)
Definition slice_index (len : nat) (k : Z) : nat :=
  if (k <? 0)%Z then Z.to_nat (Z.max (k + Z.of_nat len) 0)
  else Nat.min (Z.to_nat k) len.

(** [l[k:]] and [l[:k]]. *)
Definition slice_from {A} (l : list A) (k : Z) : list A :=
  drop (slice_index (length l) k) l.
Definition slice_to {A} (l : list A) (k : Z) : list A :=
  take (slice_index (length l) k) l.

End Py.

(** ** [data_generation.py]: [Quad2DObstaclesDataModule] *)

Module DataModule.
Import Tensor DataGeneration.

(** [np.pi], the double nearest to pi. *)
Definition np_pi : Q := 884279719003555 # 281474976710656.

(** [torch.utils.data.TensorDataset]: tensors sharing their first dimension. *)
Record TensorDataset := mkTensorDataset {
  ds_x : list (list Q);
  ds_safe : list bool;
  ds_unsafe : list bool }.

(** [TensorDataset(x, safe_mask, unsafe_mask)]; the constructor asserts that
    all tensors have the same size along the first dimension. *)
Definition TensorDataset_new (x : tensor2) (safe_mask unsafe_mask : mask)
  : option TensorDataset :=
  if ((length safe_mask =? length x) && (length unsafe_mask =? length x))%nat
  then Some (mkTensorDataset x safe_mask unsafe_mask) else None.

(** [dataset[k:]] and [dataset[:k]]: [TensorDataset.__getitem__] indexes every
    tensor with the slice and returns the tuple of results. *)
Definition getitem_from (d : TensorDataset) (k : Z) : tensor2 * mask * mask :=
  (Py.slice_from (ds_x d) k, Py.slice_from (ds_safe d) k, Py.slice_from (ds_unsafe d) k).
Definition getitem_to (d : TensorDataset) (k : Z) : tensor2 * mask * mask :=
  (Py.slice_to (ds_x d) k, Py.slice_to (ds_safe d) k, Py.slice_to (ds_unsafe d) k).


(** The attributes of a data module.  [dataset] is set by [prepare_data],
    [train_data] and [validation_data] by [setup]. *)
Record Quad2DObstaclesDataModule := mkDataModule {
  N_samples : nat;
  split : Q;
  batch_size : nat;
  n_dims : nat;
  domains : list (list (Q * Q));
  N : nat;
  dataset : option TensorDataset;
  train_data : option (list (list Q) * list bool * list bool);
  validation_data : option (list (list Q) * list bool * list bool) }.

(** The two default sampling domains. *)
Definition default_domains : list (list (Q * Q)) :=
  [ [ (-4.0, 4.0);          (* x *)
      (-4.0, 4.0);          (* z *)
      (- np_pi, np_pi);     (* theta *)
      (-10.0, 10.0);        (* vx *)
      (-10.0, 10.0);        (* vz *)
      (- np_pi, np_pi) ];   (* roll *)
    [ (-0.5, 0.5);
      (-0.5, 0.5);
      (-0.4 * np_pi, 0.4 * np_pi);
      (-1.0, 1.0);
      (-1.0, 1.0);
      (- np_pi, np_pi) ] ].

(** The arithmetic of PyTorch on the elements of a single-precision tensor:
    [rescale v min_val max_val] is the element that
    [x_sample[:, i] * (max_val - min_val) + min_val] stores for an element
    [v] and the Python floats [min_val] and [max_val], with whatever rounding
    PyTorch applies; the result need not lie between [min_val] and
    [max_val]. *)
Class TorchArith := { rescale : Q → Q → Q → Q }.

Section WithEnvironment.

Context {arith : TorchArith}.

(** [Quad2D.N_DIMS], a constant of the dynamics model. *)
Variable N_DIMS : nat.

(** The random source: [rand k r c] is entry [(r, c)] of the tensor drawn by
    the [k]-th call of [torch.Tensor(rows, cols).uniform_(0.0, 1.0)]. *)
Variable rand : nat → nat → nat → Q.

Definition uniform_ (k rows cols : nat) : tensor2 :=
  (λ r, (λ c, rand k r c) <$> seq 0 cols) <$> seq 0 rows.

(** [__init__(N_samples, domains, split)]; [None] when an assertion fails. *)
Definition init (N_samples0 : nat) (domains0 : option (list (list (Q * Q))))
    (split0 : Q) : option Quad2DObstaclesDataModule :=
  let n_dims0 := N_DIMS in
  domains1 ←
    match domains0 with
    | None => Some default_domains
    | Some ds =>
        if forallb (λ domain, (length domain =? n_dims0)%nat) ds
        then Some ds else None
    end;
  (* Since we sample N_samples from each domain, the total number of samples
     might be more than just N_samples *)
  Some {| N_samples := N_samples0; split := split0; batch_size := 64;
          n_dims := n_dims0; domains := domains1;
          N := (length domains1 * N_samples0)%nat;
          dataset := None; train_data := None; validation_data := None |}.

(** [x_sample[:, i] = x_sample[:, i] * (max_val - min_val) + min_val]. *)
Definition scale_column (i : nat) (min_val max_val : Q) (x_sample : tensor2) : tensor2 :=
  (λ row, alter (λ v, rescale v min_val max_val) i row) <$> x_sample.

(** The inner loop [for i in range(self.n_dims)]; [domain[i]] may be out of
    range. *)
Definition scale_sample (n : nat) (domain : list (Q * Q)) (x_sample : tensor2)
  : option tensor2 :=
  foldl (λ acc i, x ← acc;
                  '(min_val, max_val) ← domain !! i;
                  Some (scale_column i min_val max_val x))
        (Some x_sample) (seq 0 n).

(** The outer loop [for domain in self.domains], [k] counting the draws. *)
Fixpoint sample_domains (dm_N_samples dm_n_dims k : nat)
    (ds : list (list (Q * Q))) : option (list tensor2) :=
  match ds with
  | [] => Some []
  | domain :: rest =>
      (* Sample all dimensions from [0, 1], then scale and shift as needed *)
      x_sample ← scale_sample dm_n_dims domain (uniform_ k dm_N_samples dm_n_dims);
      x_samples ← sample_domains dm_N_samples dm_n_dims (S k) rest;
      Some (x_sample :: x_samples)
  end.

(** [torch.vstack]; it rejects an empty list of tensors. *)
Definition vstack (xs : list tensor2) : option tensor2 :=
  match xs with
  | [] => None
  | _ => Some (concat xs)
  end.

(** [prepare_data]: create the dataset by randomly sampling from the domains. *)
Definition prepare_data (self : Quad2DObstaclesDataModule)
  : option Quad2DObstaclesDataModule :=
  x_samples ← sample_domains (N_samples self) (n_dims self) 0 (domains self);
  (* Concatenate all the samples into one big tensor *)
  x ← vstack x_samples;
  (* Create the safe/unsafe masks for the sampled points *)
  safe_mask ← safe_mask_fn x;
  unsafe_mask ← unsafe_mask_fn x;
  (* Combine all of these into a single dataset and save it *)
  d ← TensorDataset_new x safe_mask unsafe_mask;
  Some {| N_samples := N_samples self; split := split self;
          batch_size := batch_size self; n_dims := n_dims self;
          domains := domains self; N := N self;
          dataset := Some d;
          train_data := train_data self; validation_data := validation_data self |}.

(** [int(self.N * self.split)]: the integer is converted to a double, the
    product is rounded to a double, and [int] truncates it. *)
Definition split_pt (N : nat) (split : Q) : Z :=
  Py.int (Py.float_mul (Py.float_of_int (Z.of_nat N)) split).


(** [setup]: the data for training and validation.  Reading [self.dataset]
    before [prepare_data] has set it is an [AttributeError]. *)
Definition setup (self : Quad2DObstaclesDataModule)
  : option Quad2DObstaclesDataModule :=
  (* The data were generated randomly, so no need to do a random split *)
  let split_pt := split_pt (N self) (split self) in
  d ← dataset self;
  Some {| N_samples := N_samples self; split := split self;
          batch_size := batch_size self; n_dims := n_dims self;
          domains := domains self; N := N self;
          dataset := dataset self;
          train_data := Some (getitem_from d split_pt);
          validation_data := Some (getitem_to d split_pt) |}.

End WithEnvironment.

End DataModule.

(** ** The convex programs the controller hands to [cvxpy] *)

Module Cvx.

(** A point of the plane and a 2 x 2 matrix. *)
Abbreviation vec2 := (Q * Q)%type.
Record mat2 := Mat2 { m00 : Q; m01 : Q; m10 : Q; m11 : Q }.

(** [M @ v]. *)
Definition matvec (M : mat2) (v : vec2) : vec2 :=
  (m00 M * v.1 + m01 M * v.2, m10 M * v.1 + m11 M * v.2).

(** The value of [cp.quad_form(v, M)], that is [v^T M v]. *)
Definition quad_form (v : vec2) (M : mat2) : Q :=
  v.1 * (m00 M * v.1 + m01 M * v.2) + v.2 * (m10 M * v.1 + m11 M * v.2).

(** The two optimisation variables:
    [P = cp.Variable((2, 2), symmetric=True)] and [x_target = cp.Variable(2)]. *)
Inductive variable := P | x_target.

Definition symmetric_attr (v : variable) : bool :=
  match v with P => true | x_target => false end.

(** The constraints the controller builds. *)
Inductive constraint :=
| PSD_P                                   (* P >> 0 *)
| QuadFormP_ge (o_i : vec2) (c : Q)       (* cp.quad_form(o_i, P) >= c *)
| QuadFormX_le (P_opt : mat2) (c : Q).    (* cp.quad_form(x_target, P_opt) <= c *)

(** The objectives the controller builds. *)
Inductive objective :=
| Maximize_log_det_minus_trace (k : Q)
    (* cp.Maximize(cp.log_det(P) - k * cp.trace(P)) *)
| Minimize_sum_squares (batch_x : vec2) (rotation_mat : mat2).
    (* cp.Minimize(cp.sum_squares(batch_x + rotation_mat @ x_target)) *)

(** [cp.Problem(objective, constraints)]. *)
Record Problem := mkProblem {
  prob_objective : objective;
  prob_constraints : list constraint }.

(** The variables an expression mentions. *)
Definition constraint_variables (c : constraint) : list variable :=
  match c with
  | PSD_P => [P]
  | QuadFormP_ge _ _ => [P]
  | QuadFormX_le _ _ => [x_target]
  end.

Definition objective_variables (o : objective) : list variable :=
  match o with
  | Maximize_log_det_minus_trace _ => [P]
  | Minimize_sum_squares _ _ => [x_target]
  end.

(** [prob.variables()]: the decision variables of a problem are the
    variables its objective and constraints mention. *)
Definition variables (prob : Problem) : list variable :=
  objective_variables (prob_objective prob)
    ++ flat_map constraint_variables (prob_constraints prob).

(** What [prob.solve()] leaves behind: [prob.status], [P.value] and
    [x_target.value]. *)
Record Solution := mkSolution {
  status : string;
  P_value : mat2;
  x_target_value : vec2 }.

(** The solver behind [prob.solve()]. *)
Class Solver := { solve : Problem → Solution }.

(** *** The contract of an [optimal] status

    "The convex solver certifies the returned solution satisfies all
    constraints ... within tolerance": satisfaction up to [eps]. *)

(** [M >> 0] up to [eps]: [v^T M v >= - eps |v|^2], the eigenvalues of the
    symmetric part are at least [- eps]. *)
Definition psd_tol (eps : Q) (M : mat2) : Prop :=
  ∀ v : vec2, - eps * (v.1 * v.1 + v.2 * v.2) <= quad_form v M.

Definition satisfies (eps : Q) (sol : Solution) (c : constraint) : Prop :=
  match c with
  | PSD_P => psd_tol eps (P_value sol)
  | QuadFormP_ge o_i c => c - eps <= quad_form o_i (P_value sol)
  | QuadFormX_le P_opt c => quad_form (x_target_value sol) P_opt <= c + eps
  end.

Definition solver_sound `{Solver} (eps : Q) : Prop :=
  ∀ prob, status (solve prob) = "optimal" →
    (symmetric_attr P = true → m01 (P_value (solve prob)) == m10 (P_value (solve prob))) ∧
    Forall (satisfies eps (solve prob)) (prob_constraints prob).

End Cvx.

(** ** [obs_mpc_controller.py]: [ObsMPCController] *)

Module ObsMPC.
Import Tensor Cvx.

(** The part of the dynamics model ([ObservableSystem]) the controller uses.
    An observation batch has shape [(bs, 2, K)]; element [obs[i, :, k]] is
    the [k]-th sensed point of batch element [i]. *)
Class ObservableSystem := {
  n_dims : nat;
  n_controls : nat;
  get_observations : list (list Q) → list (list vec2);
  u_nominal : list (list Q) → list (list Q);
  control_limits : list Q * list Q }.

(** [np.cos] and [np.sin]. *)
Class Numpy := { np_cos : Q → Q; np_sin : Q → Q }.

(** Calls to the collaborators, in the order they are made. *)
Inductive event :=
| CallSolve (prob : Problem)           (* prob.solve() *)
| CallNominal (x : list (list Q)).     (* self.dynamics_model.u_nominal(x) *)

(** Computations that may raise and that record their collaborator calls:
    from the calls made so far to a result ([None] after an exception) and
    the calls made by then. *)
Definition M (A : Type) : Type := list event → option A * list event.

#[export] Instance M_ret : MRet M := λ A a tr, (Some a, tr).
#[export] Instance M_bind : MBind M := λ A B f m tr,
  match m tr with
  | (Some a, tr') => f a tr'
  | (None, tr') => (None, tr')
  end.

(** A Python exception. *)
Definition raise {A} : M A := λ tr, (None, tr).

(** An operation that raises when it has no result. *)
Definition or_raise {A} (o : option A) : M A :=
  match o with Some a => mret a | None => raise end.

Section Controller.
Context {dynamics_model : ObservableSystem} {cp : Solver} {np : Numpy}.

Definition prob_solve (prob : Problem) : M Solution :=
  λ tr, (Some (solve prob), tr ++ [CallSolve prob]).

Definition call_u_nominal (x : tensor2) : M tensor2 :=
  λ tr, (Some (u_nominal x), tr ++ [CallNominal x]).

(** [constraints = [P >> 0]] followed by the loop over the detected points,
    appending [cp.quad_form(o_i, P) >= 1.25] for each. *)
Definition stage1_constraints (batch_obs : list vec2) : list constraint :=
  foldl (λ constraints o_i, constraints ++ [QuadFormP_ge o_i 1.25]) [PSD_P] batch_obs.

Definition rotation_mat (theta : Q) : mat2 :=
  Mat2 (np_cos theta) (- np_sin theta)
       (np_sin theta) (np_cos theta).

(** [.squeeze()] of the answer of the nominal controller to a batch of one
    state, a tensor of one row.  (An answer of another shape is taken as an
    error; PyTorch would go on to broadcast some of them in the assignment.) *)
Definition squeeze (t : tensor2) : option (list Q) :=
  match t with [row] => Some row | _ => None end.

(** The body of the batch loop up to the assignment to [u[batch_idx, :]]:
    [Some row] is the row to assign, [None] is [continue]. *)
Definition solve_element (x_row : list Q) (batch_obs : list vec2)
  : M (option (list Q)) :=
  let batch_x := take 2 x_row in
  (* Compute an ellipsoid under-approximating the free space. *)
  let constraints := stage1_constraints batch_obs in
  (* Solve for the P with largest volume *)
  let prob := mkProblem (Maximize_log_det_minus_trace 100) constraints in
  sol ← prob_solve prob;
  (* Skip if no solution *)
  if negb (String.eqb (status sol) "optimal") then mret None else
  (* Otherwise, continue on *)
  let P_opt := P_value sol in
  (* Next, solve for the point inside that ellipsoid closest to the origin *)
  theta ← or_raise (x_row !! 2%nat);
  let rotation_mat := rotation_mat theta in
  batch_x ← or_raise (match batch_x with [a; b] => Some (a, b) | _ => None end);
  let objective := Minimize_sum_squares batch_x rotation_mat in
  (* We also want x_target to be within the ellipsoid *)
  let constraints := constraints ++ [QuadFormX_le P_opt 0.75] in
  (* Solve for the target point *)
  let prob := mkProblem objective constraints in
  sol ← prob_solve prob;
  let x_target_opt := x_target_value sol in
  (* Skip if no solution *)
  if negb (String.eqb (status sol) "optimal") then mret None else
  (* and convert to the global frame *)
  let x_target_opt := matvec rotation_mat x_target_opt in
  (* Now navigate towards that point by offsetting x from this target point
     (shifting the origin) and applying the nominal controller *)
  let x_shifted := [- x_target_opt.1; - x_target_opt.2] in
  let x_shifted := x_shifted ++ [theta] in
  u_row ← call_u_nominal [x_shifted];
  u_row ← or_raise (squeeze u_row);
  mret (Some u_row).

(** [u[batch_idx, :] = row]; the shapes must agree. *)
Definition assign_row (u : tensor2) (batch_idx : nat) (row : list Q) : M tensor2 :=
  if (length row =? n_controls)%nat then mret (<[batch_idx := row]> u) else raise.

(** One iteration of [for batch_idx in range(batch_size)]. *)
Definition loop_body (x : tensor2) (obs : list (list vec2)) (batch_idx : nat)
    (u : tensor2) : M tensor2 :=
  batch_obs ← or_raise (obs !! batch_idx);
  x_row ← or_raise (x !! batch_idx);
  r ← solve_element x_row batch_obs;
  match r with
  | None => mret u
  | Some row => assign_row u batch_idx row
  end.

Fixpoint for_range (body : nat → tensor2 → M tensor2) (range : list nat)
    (u : tensor2) : M tensor2 :=
  match range with
  | [] => mret u
  | batch_idx :: rest => u ← body batch_idx u; for_range body rest u
  end.

(** [u[:, 0] *= 2.0]; column 0 must exist. *)
Definition scale_column0 (u : tensor2) : M tensor2 :=
  if (n_controls =? 0)%nat then raise
  else mret ((λ row, alter (λ v, v * 2.0) 0%nat row) <$> u).

(** [torch.clamp(u, lo, hi)] on one row: [min(max(u, lo), hi)] per
    component. *)
Definition clamp_row (row lo hi : list Q) : list Q :=
  zip_with (λ v b, Qmin (Qmax v b.1) b.2) row (zip lo hi).

(** [torch.clamp(u, lo, hi)] with the limit vectors broadcast over the batch.
    (Limits of another length than the control vector are taken as an error;
    PyTorch would go on to broadcast limits of length one.) *)
Definition clamp (u : tensor2) (lo hi : list Q) : M tensor2 :=
  if ((length lo =? n_controls) && (length hi =? n_controls))%nat
  then mret ((λ row, clamp_row row lo hi) <$> u) else raise.

(** Returns the control input at a given state. *)
Definition u (x : tensor2) : M tensor2 :=
  (* Get the observations *)
  let obs := get_observations x in
  (* Solve the MPC problem for each element of the batch *)
  let batch_size := length x in
  let u := replicate batch_size (replicate n_controls 0) in
  u ← for_range (loop_body x obs) (seq 0 batch_size) u;
  (* Scale the velocities a bit *)
  u ← scale_column0 u;
  let '(u_upper, u_lower) := control_limits in
  u ← clamp u u_lower u_upper;
  mret u.

(** *** Vocabulary of the statements

    The two programs of a batch element with position [(a, b)], heading
    [theta] and observed points [batch_obs], and what is derived from their
    solutions. *)

Definition stage1_problem (batch_obs : list vec2) : Problem :=
  mkProblem (Maximize_log_det_minus_trace 100) (stage1_constraints batch_obs).

Definition stage1_P_opt (batch_obs : list vec2) : mat2 :=
  P_value (solve (stage1_problem batch_obs)).

Definition stage2_problem (a b theta : Q) (batch_obs : list vec2) : Problem :=
  mkProblem (Minimize_sum_squares (a, b) (rotation_mat theta))
            (stage1_constraints batch_obs
               ++ [QuadFormX_le (stage1_P_opt batch_obs) 0.75]).

Definition stage2_x_target (a b theta : Q) (batch_obs : list vec2) : vec2 :=
  x_target_value (solve (stage2_problem a b theta batch_obs)).

(** [x_target_global = R(theta) x_target]. *)
Definition x_target_global (a b theta : Q) (batch_obs : list vec2) : vec2 :=
  matvec (rotation_mat theta) (stage2_x_target a b theta batch_obs).

Definition optimal (prob : Problem) : Prop := status (solve prob) = "optimal".

(** Both solves of the element report [optimal]. *)
Definition both_optimal (a b theta : Q) (batch_obs : list vec2) : Prop :=
  optimal (stage1_problem batch_obs) ∧ optimal (stage2_problem a b theta batch_obs).

(** Stage 1 or Stage 2 of the element reports a status other than
    [optimal]. *)
Definition some_not_optimal (x_row : list Q) (batch_obs : list vec2) : Prop :=
  ¬ optimal (stage1_problem batch_obs) ∨
  (optimal (stage1_problem batch_obs) ∧
   ∃ a b theta rest, x_row = a :: b :: theta :: rest ∧
                     ¬ optimal (stage2_problem a b theta batch_obs)).

(** What the loop body decides for a batch element, whatever calls were made
    before: [Some (Some row)] assigns [row], [Some None] is [continue],
    [None] an exception. *)
Definition element_row (x_row : list Q) (batch_obs : list vec2)
  : option (option (list Q)) :=
  (solve_element x_row batch_obs []).1.

(** What the end of [u] makes of one row: the column-0 gain, then the clamp. *)
Definition scale_clamp (row : list Q) : list Q :=
  let '(u_upper, u_lower) := control_limits in
  clamp_row (alter (λ v, v * 2.0) 0%nat row) u_lower u_upper.

(** [clamp(scale(zero_vector))]. *)
Definition clamped_scaled_zero : list Q :=
  scale_clamp (replicate n_controls 0).

(** The collaborators keep to their interface for the batch [x]: states of
    [n_dims >= 3] components, one observation set per state, a nominal
    command of [n_controls >= 1] components per queried state, and limit
    vectors as long as the control vector. *)
Record well_formed (x : list (list Q)) : Prop := {
  wf_state : Forall (λ row : list Q, length row = n_dims) x;
  wf_dims : (3 <= n_dims)%nat;
  wf_obs : length (get_observations x) = length x;
  wf_nominal : ∀ xs, ∃ row, u_nominal [xs] = [row] ∧ length row = n_controls;
  wf_controls : n_controls ≠ 0%nat;
  wf_limits : length control_limits.1 = n_controls ∧
              length control_limits.2 = n_controls }.

End Controller.

End ObsMPC.

(** ** Counting the calls of the controller *)

Module Calls.
Import Tensor Cvx ObsMPC.

Definition is_solve (e : event) : bool :=
  match e with CallSolve _ => true | CallNominal _ => false end.

Definition is_nominal (e : event) : bool :=
  match e with CallSolve _ => false | CallNominal _ => true end.

(** How many calls of a kind a list of calls holds. *)
Definition count (kind : event → bool) (tr : list event) : nat :=
  length (List.filter kind tr).

(** A query to the nominal controller: a batch of one state of three
    components, the last one being [theta]. *)
Definition planar_query (theta : option Q) (e : event) : Prop :=
  ∀ q, e = CallNominal q → ∃ g1 g2 t, q = [[g1; g2; t]] ∧ theta = Some t.

Section WithCollaborators.
Context {dynamics_model : ObservableSystem} {cp : Solver} {np : Numpy}.

(** The calls one batch element makes. *)
Definition element_events (x_row : list Q) (batch_obs : list vec2) : list event :=
  (solve_element x_row batch_obs []).2.

(** Whether the loop assigns a row for the element. *)
Definition updated (x_row : list Q) (batch_obs : list vec2) : bool :=
  match element_row x_row batch_obs with
  | Some (Some _) => true
  | _ => false
  end.

End WithCollaborators.

End Calls.

(** ** A concrete scene, for evaluating the controller

    One robot and four sensed points forming a unit square centred two units
    ahead of it in the body frame; a linear nominal controller; a solver
    that certifies a fixed candidate against the constraints it is given. *)

Module Scene.
Import Tensor Cvx ObsMPC.

Definition square_ahead : list vec2 :=
  [(1.5, 0.5); (1.5, -0.5); (2.5, 0.5); (2.5, -0.5)].

(** Dynamics with [limits] as the value of [control_limits]. *)
Definition system (limits : list Q * list Q) : ObservableSystem :=
  {| n_dims := 3;
     n_controls := 2;
     get_observations := λ x, (λ _, square_ahead) <$> x;
     u_nominal := λ x, (λ row, [3 - nth 0 row 0 - nth 1 row 0; - nth 2 row 0]) <$> x;
     control_limits := limits |}.

(** Truncated series, exact at heading 0. *)
Definition numpy : Numpy :=
  {| np_cos := λ t, 1 - t * t / 2; np_sin := λ t, t |}.

(** Sylvester's criterion for a symmetric 2 x 2 matrix. *)
Definition sylvester (M : mat2) : bool :=
  Qeq_bool (m01 M) (m10 M) && Qle_bool 0 (m00 M) && Qle_bool 0 (m11 M)
  && Qle_bool (m01 M * m10 M) (m00 M * m11 M).

Definition check (sol : Solution) (c : constraint) : bool :=
  match c with
  | PSD_P => sylvester (P_value sol)
  | QuadFormP_ge o_i c => Qle_bool c (quad_form o_i (P_value sol))
  | QuadFormX_le P_opt c => Qle_bool (quad_form (x_target_value sol) P_opt) c
  end.

(** Reports [optimal] with the candidate when it meets every constraint of
    the problem, [infeasible] otherwise. *)
Definition certifying_solver (candidate : Solution) : Solver :=
  {| solve := λ prob,
       if sylvester (P_value candidate) && forallb (check candidate) (prob_constraints prob)
       then mkSolution "optimal" (P_value candidate) (x_target_value candidate)
       else mkSolution "infeasible" (P_value candidate) (x_target_value candidate) |}.

Definition candidate : Solution :=
  mkSolution "optimal" (Mat2 0.5 0 0 0.5) (1, 0.5).

(** Actuator limits. *)
Definition lower : list Q := [-1; -1].
Definition upper : list Q := [1; 1].

(** A fixed table of draws in [0, 1). *)
Definition rand (k r c : nat) : Q := Z.of_nat c # Pos.of_nat (S (k + r + c)).

(** An arithmetic without rounding, for draws and intervals that need none. *)
#[export] Instance exact_arith : DataModule.TorchArith :=
  {| DataModule.rescale v min_val max_val := v * (max_val - min_val) + min_val |}.

(** The Python float [1 / 3]: the double nearest to a third. *)
Definition one_third : Q := 6004799503160661 # 18014398509481984.

(** A solver that never converges. *)
Definition failing_solver : Solver :=
  {| solve := λ _, mkSolution "infeasible" (Mat2 0 0 0 0) (0, 0) |}.

End Scene.

(** ** Vocabulary of the statements: axis-aligned boxes *)

Module Box.

(** The closed box [xr × zr] in the [(px, pz)] plane. *)
Definition in_box (xr zr : Q * Q) (px pz : Q) : Prop :=
  fst xr <= px <= snd xr ∧ fst zr <= pz <= snd zr.

(** A point of the closed box with a coordinate on one of its four sides. *)
Definition on_box_boundary (xr zr : Q * Q) (px pz : Q) : Prop :=
  in_box xr zr px pz ∧
  (px == fst xr ∨ px == snd xr ∨ pz == fst zr ∨ pz == snd zr).

End Box.

(** * Properties *)

(** ** Tensors *)

Section TensorFacts.
Import Tensor.

Lemma column_lookup j x c i row :
  column j x = Some c → x !! i = Some row →
  ∃ a, row !! j = Some a ∧ c !! i = Some a.
Proof.
  unfold column. intros HF Hrow. apply mapM_Some in HF.
  destruct (Forall2_lookup_l _ _ _ _ _ HF Hrow) as (a & Ha & Hja). eauto.
Qed.

Lemma column_length j x c : column j x = Some c → length c = length x.
Proof.
  unfold column. intros HF. apply mapM_Some in HF. symmetry.
  eapply Forall2_length, HF.
Qed.

Lemma column_total j x :
  Forall (λ row : list Q, (j < length row)%nat) x → is_Some (column j x).
Proof.
  intros HF. unfold column. apply mapM_is_Some.
  eapply Forall_impl; [exact HF|]. intros row Hlt. by apply lookup_lt_is_Some.
Qed.

Lemma ge_scalar_lookup v c i a :
  v !! i = Some a → ge_scalar v c !! i = Some (Qle_bool c a).
Proof. intros H. unfold ge_scalar. by rewrite list_lookup_fmap, H. Qed.

Lemma le_scalar_lookup v c i a :
  v !! i = Some a → le_scalar v c !! i = Some (Qle_bool a c).
Proof. intros H. unfold le_scalar. by rewrite list_lookup_fmap, H. Qed.

Lemma logical_and_lookup a b i p q :
  a !! i = Some p → b !! i = Some q → logical_and a b !! i = Some (p && q).
Proof. intros Ha Hb. unfold logical_and. by rewrite lookup_zip_with, Ha, Hb. Qed.

Lemma logical_or_lookup a b i p q :
  a !! i = Some p → b !! i = Some q → logical_or a b !! i = Some (p || q).
Proof. intros Ha Hb. unfold logical_or. by rewrite lookup_zip_with, Ha, Hb. Qed.

Lemma ones_like_lookup v i (a : Q) : v !! i = Some a → ones_like v !! i = Some true.
Proof.
  intros H. apply lookup_replicate. split; [done|]. by eapply lookup_lt_Some.
Qed.

Lemma zeros_like_lookup v i (a : Q) : v !! i = Some a → zeros_like v !! i = Some false.
Proof.
  intros H. apply lookup_replicate. split; [done|]. by eapply lookup_lt_Some.
Qed.

Lemma norm_le_lookup x c i row :
  x !! i = Some row → norm_le x c !! i = Some (norm_le_row row c).
Proof. intros H. unfold norm_le. by rewrite list_lookup_fmap, H. Qed.

Lemma norm_ge_lookup x c i row :
  x !! i = Some row → norm_ge x c !! i = Some (norm_ge_row row c).
Proof. intros H. unfold norm_ge. by rewrite list_lookup_fmap, H. Qed.

Lemma sum_squares_nonneg row : 0 <= sum_squares row.
Proof.
  induction row as [|a row IH]; simpl; [qlra|].
  assert (0 <= a * a) by qnra. qlra.
Qed.

End TensorFacts.

(** Reads element [i] of a mask expression off the elements of its operands. *)
Ltac mask_lookup :=
  repeat first
    [ eapply logical_and_lookup
    | eapply logical_or_lookup
    | eapply ge_scalar_lookup; eassumption
    | eapply le_scalar_lookup; eassumption
    | eapply ones_like_lookup; eassumption
    | eapply zeros_like_lookup; eassumption
    | eapply norm_le_lookup; eassumption
    | eapply norm_ge_lookup; eassumption ].

(** ** The safe and unsafe masks *)

Section MaskFacts.
Import Tensor DataGeneration.

(** Element [i] of the safe mask is the conjunction of the four safe
    conditions at row [i]. *)
Lemma safe_mask_fn_lookup x m i row :
  safe_mask_fn x = Some m → x !! i = Some row →
  ∃ px pz, row !! 0%nat = Some px ∧ row !! 1%nat = Some pz ∧
           m !! i = Some (safe_point px pz row).
Proof.
  unfold safe_mask_fn. intros Hm Hrow.
  destruct (column 0 x) as [x0|] eqn:E0; [|discriminate]. simpl in Hm.
  destruct (column 1 x) as [x1|] eqn:E1; [|discriminate]. simpl in Hm.
  destruct (column_lookup _ _ _ _ _ E0 Hrow) as (px & Hpx & Hx0).
  destruct (column_lookup _ _ _ _ _ E1 Hrow) as (pz & Hpz & Hx1).
  exists px, pz. split; [done|]. split; [done|].
  injection Hm as <-. cbv beta iota zeta. unfold safe_point, safe_floor, safe_obs1, safe_obs2, safe_norm.
  mask_lookup.
Qed.

(** Element [i] of the unsafe mask is the disjunction of the four unsafe
    conditions at row [i]. *)
Lemma unsafe_mask_fn_lookup x m i row :
  unsafe_mask_fn x = Some m → x !! i = Some row →
  ∃ px pz, row !! 0%nat = Some px ∧ row !! 1%nat = Some pz ∧
           m !! i = Some (unsafe_point px pz row).
Proof.
  unfold unsafe_mask_fn. intros Hm Hrow.
  destruct (column 0 x) as [x0|] eqn:E0; [|discriminate]. simpl in Hm.
  destruct (column 1 x) as [x1|] eqn:E1; [|discriminate]. simpl in Hm.
  destruct (column_lookup _ _ _ _ _ E0 Hrow) as (px & Hpx & Hx0).
  destruct (column_lookup _ _ _ _ _ E1 Hrow) as (pz & Hpz & Hx1).
  exists px, pz. split; [done|]. split; [done|].
  injection Hm as <-. cbv beta iota zeta. unfold unsafe_point, unsafe_floor, unsafe_obs1, unsafe_obs2, unsafe_norm.
  mask_lookup.
Qed.

End MaskFacts.

(** ** Link between the squared comparisons and the Euclidean norm *)

Section NormReal.
Import Tensor.

Lemma Q2R_sum_squares_nonneg row : (0 <= Q2R (sum_squares row))%R.
Proof.
  replace 0%R with (Q2R 0) by (unfold Q2R; simpl; Lra.lra).
  apply Qle_Rle, sum_squares_nonneg.
Qed.

(** [x.norm(dim=-1) <= c], read over the reals, is the squared test. *)
Lemma norm_le_row_real row c :
  0 <= c →
  norm_le_row row c = true ↔ (sqrt (Q2R (sum_squares row)) <= Q2R c)%R.
Proof.
  intros Hc. unfold norm_le_row. rewrite Qle_bool_iff.
  assert (HcR : (0 <= Q2R c)%R).
  { replace 0%R with (Q2R 0) by (unfold Q2R; simpl; Lra.lra). by apply Qle_Rle. }
  pose proof (Q2R_sum_squares_nonneg row) as Hs.
  split.
  - intros H. apply Qle_Rle in H. rewrite Q2R_mult in H.
    rewrite <- (sqrt_square (Q2R c)) by exact HcR.
    by apply sqrt_le_1_alt.
  - intros H. apply Rle_Qle. rewrite Q2R_mult.
    rewrite <- (sqrt_sqrt (Q2R (sum_squares row))) by exact Hs.
    pose proof (sqrt_pos (Q2R (sum_squares row))).
    apply Rmult_le_compat; assumption.
Qed.

(** [x.norm(dim=-1) >= c], read over the reals, is the squared test. *)
Lemma norm_ge_row_real row c :
  0 <= c →
  norm_ge_row row c = true ↔ (Q2R c <= sqrt (Q2R (sum_squares row)))%R.
Proof.
  intros Hc. unfold norm_ge_row. rewrite Qle_bool_iff.
  assert (HcR : (0 <= Q2R c)%R).
  { replace 0%R with (Q2R 0) by (unfold Q2R; simpl; Lra.lra). by apply Qle_Rle. }
  pose proof (Q2R_sum_squares_nonneg row) as Hs.
  split.
  - intros H. apply Qle_Rle in H. rewrite Q2R_mult in H.
    rewrite <- (sqrt_square (Q2R c)) by exact HcR.
    by apply sqrt_le_1_alt.
  - intros H. apply Rle_Qle. rewrite Q2R_mult.
    rewrite <- (sqrt_sqrt (Q2R (sum_squares row))) by exact Hs.
    apply Rmult_le_compat; assumption.
Qed.

End NormReal.

(** ** Safe and unsafe regions *)

Section Regions.
Import Tensor DataGeneration.

Lemma safe_mask_fn_length x m : safe_mask_fn x = Some m → length m = length x.
Proof.
  unfold safe_mask_fn. intros Hm.
  destruct (column 0 x) as [x0|] eqn:E0; [|discriminate]. simpl in Hm.
  destruct (column 1 x) as [x1|] eqn:E1; [|discriminate]. simpl in Hm.
  apply column_length in E0, E1. injection Hm as <-. cbv beta iota zeta.
  unfold logical_and, logical_or, ones_like, ge_scalar, le_scalar, norm_le.
  rewrite !length_zip_with, !length_fmap, !length_replicate. lia.
Qed.

Lemma unsafe_mask_fn_length x m : unsafe_mask_fn x = Some m → length m = length x.
Proof.
  unfold unsafe_mask_fn. intros Hm.
  destruct (column 0 x) as [x0|] eqn:E0; [|discriminate]. simpl in Hm.
  destruct (column 1 x) as [x1|] eqn:E1; [|discriminate]. simpl in Hm.
  apply column_length in E0, E1. injection Hm as <-. cbv beta iota zeta.
  unfold logical_and, logical_or, zeros_like, ge_scalar, le_scalar, norm_ge.
  rewrite !length_zip_with, !length_fmap, !length_replicate. lia.
Qed.

(** Both masks are produced for every batch of states with at least the two
    position components. *)
Lemma mask_fns_total x :
  Forall (λ row : list Q, (2 <= length row)%nat) x →
  is_Some (safe_mask_fn x) ∧ is_Some (unsafe_mask_fn x).
Proof.
  intros HF.
  destruct (column_total 0 x) as [x0 E0].
  { eapply Forall_impl; [exact HF|]. simpl. lia. }
  destruct (column_total 1 x) as [x1 E1].
  { eapply Forall_impl; [exact HF|]. simpl. lia. }
  unfold safe_mask_fn, unsafe_mask_fn. rewrite E0, E1. simpl. eauto.
Qed.

Ltac bool_to_Q H :=
  repeat first [ rewrite andb_true_iff in H
               | rewrite orb_true_iff in H
               | rewrite Qle_bool_iff in H ].

(** The two point predicates exclude each other. *)
Lemma safe_unsafe_point_disjoint px pz row :
  safe_point px pz row && unsafe_point px pz row = false.
Proof.
  apply not_true_is_false. intros H.
  unfold safe_point, unsafe_point, safe_floor, safe_obs1, safe_obs2, safe_norm,
    unsafe_floor, unsafe_obs1, unsafe_obs2, unsafe_norm, norm_le_row, norm_ge_row in H.
  bool_to_Q H.
  destruct H as [[[[[_ Hfloor] Hobs1] Hobs2] Hnorm] Hu].
  destruct Hu as [[[[Hu|Hu]|Hu]|Hu]|Hu]; [discriminate| | | |].
  - qlra.
  - destruct Hu as [[? ?] [? ?]]. destruct Hobs1 as [[?|?]|[?|?]]; qlra.
  - destruct Hu as [[? ?] [? ?]]. destruct Hobs2 as [[?|?]|[?|?]]; qlra.
  - qlra.
Qed.

(** C7. For every batch of states, no element is flagged by both
    [safe_mask_fn] and [unsafe_mask_fn]: the two masks have one entry per
    state and are never both true at the same index.  (Both masks are
    produced whenever every state has its two position components.) *)
Theorem safe_unsafe_disjoint (x : list (list Q)) :
  (Forall (λ row : list Q, (2 <= length row)%nat) x →
   is_Some (safe_mask_fn x) ∧ is_Some (unsafe_mask_fn x)) ∧
  ∀ s us : list bool,
    safe_mask_fn x = Some s → unsafe_mask_fn x = Some us →
    length s = length x ∧ length us = length x ∧
    ∀ i, ¬ (s !! i = Some true ∧ us !! i = Some true).
Proof.
  split; [apply mask_fns_total|].
  intros s us Hs Hus. split; [by apply safe_mask_fn_length|].
  split; [by apply unsafe_mask_fn_length|].
  intros i [Hsi Hui].
  destruct (x !! i) as [row|] eqn:Hrow.
  - destruct (safe_mask_fn_lookup _ _ _ _ Hs Hrow) as (px & pz & Hpx & Hpz & Hsp).
    destruct (unsafe_mask_fn_lookup _ _ _ _ Hus Hrow) as (px' & pz' & Hpx' & Hpz' & Hup).
    assert (px' = px) by congruence. assert (pz' = pz) by congruence. subst px' pz'.
    pose proof (safe_unsafe_point_disjoint px pz row) as Hd.
    rewrite Hsi in Hsp. rewrite Hui in Hup.
    injection Hsp as Hsp. injection Hup as Hup. rewrite <- Hsp, <- Hup in Hd.
    discriminate.
  - apply lookup_ge_None in Hrow. apply safe_mask_fn_length in Hs.
    apply lookup_lt_Some in Hsi. lia.
Qed.

(** A buffer zone exists: a point can be neither safe nor unsafe. *)
Lemma neither_safe_nor_unsafe :
  let x := [[0; -0.2; 0; 0; 0; 0]] in
  safe_mask_fn x = Some [false] ∧ unsafe_mask_fn x = Some [false].
Proof. split; vm_compute; reflexivity. Qed.

Lemma safe_unsafe_disjoint_witness :
  let x := [[0; 0; 0; 0; 0; 0]; [-0.7; 0; 0; 0; 0; 0]; [0; -0.2; 0; 0; 0; 0]] in
  let s := [true; false; false] in
  let us := [false; true; false] in
  safe_mask_fn x = Some s ∧ unsafe_mask_fn x = Some us ∧
  length s = length x ∧ length us = length x ∧
  ∀ i, ¬ (s !! i = Some true ∧ us !! i = Some true).
Proof.
  split; [vm_compute; reflexivity|]. split; [vm_compute; reflexivity|].
  apply (proj2 (safe_unsafe_disjoint
           [[0; 0; 0; 0; 0; 0]; [-0.7; 0; 0; 0; 0; 0]; [0; -0.2; 0; 0; 0; 0]])
           [true; false; false] [false; true; false]);
    vm_compute; reflexivity.
Defined.

End Regions.

(** ** Boundary points *)

Section Boundary.
Import Tensor DataGeneration Box.

Ltac bool_goal :=
  repeat first [ rewrite andb_true_iff | rewrite orb_true_iff | rewrite Qle_bool_iff ].

(** C10. Every comparison is non-strict.  For a state [row = x[i, :]] with
    position [(px, pz)]: on the boundary of a safe-exclusion box, at height
    exactly -0.1, or at norm exactly 4.5 (squared norm 4.5 * 4.5) the
    corresponding safe condition holds, the safe mask being the conjunction
    of the four conditions; on the boundary of an unsafe box, at height
    exactly -0.3, or at norm exactly 5.0 the state is flagged unsafe. *)
Theorem boundary_points_classification
    (x : list (list Q)) (s us : list bool) (i : nat) (row : list Q) (px pz : Q) :
  safe_mask_fn x = Some s → unsafe_mask_fn x = Some us →
  x !! i = Some row → row !! 0%nat = Some px → row !! 1%nat = Some pz →
  s !! i = Some (safe_floor pz && safe_obs1 px pz && safe_obs2 px pz && safe_norm row) ∧
  (on_box_boundary (-1.1, -0.4) (-0.5, 0.6) px pz → safe_obs1 px pz = true) ∧
  (on_box_boundary (-0.1, 1.1) (0.7, 1.5) px pz → safe_obs2 px pz = true) ∧
  (pz == -0.1 → safe_floor pz = true) ∧
  (sum_squares row == 4.5 * 4.5 → safe_norm row = true) ∧
  (on_box_boundary (-1.0, -0.5) (-0.4, 0.5) px pz → us !! i = Some true) ∧
  (on_box_boundary (0.0, 1.0) (0.8, 1.4) px pz → us !! i = Some true) ∧
  (pz == -0.3 → us !! i = Some true) ∧
  (sum_squares row == 5.0 * 5.0 → us !! i = Some true).
Proof.
  intros Hs Hus Hrow Hpx Hpz.
  destruct (safe_mask_fn_lookup _ _ _ _ Hs Hrow) as (px1 & pz1 & Hpx1 & Hpz1 & Hsp).
  destruct (unsafe_mask_fn_lookup _ _ _ _ Hus Hrow) as (px2 & pz2 & Hpx2 & Hpz2 & Hup).
  assert (px1 = px) by congruence. assert (pz1 = pz) by congruence.
  assert (px2 = px) by congruence. assert (pz2 = pz) by congruence.
  subst px1 pz1 px2 pz2. rewrite Hsp, Hup. clear Hsp Hup Hs Hus.
  unfold on_box_boundary, in_box. simpl fst. simpl snd.
  split; [reflexivity|].
  repeat split.
  - intros [_ Hb]. unfold safe_obs1. bool_goal.
    destruct Hb as [Hb|[Hb|[Hb|Hb]]]; rewrite Hb; [left; left|left; right|right; left|right; right]; qlra.
  - intros [_ Hb]. unfold safe_obs2. bool_goal.
    destruct Hb as [Hb|[Hb|[Hb|Hb]]]; rewrite Hb; [left; left|left; right|right; left|right; right]; qlra.
  - intros Hb. unfold safe_floor. bool_goal. qlra.
  - intros Hb. unfold safe_norm, norm_le_row. bool_goal. qlra.
  - intros [[[? ?] [? ?]] _]. f_equal. unfold unsafe_point, unsafe_obs1.
    bool_goal. left. left. right. auto.
  - intros [[[? ?] [? ?]] _]. f_equal. unfold unsafe_point, unsafe_obs2.
    bool_goal. left. right. auto.
  - intros Hb. f_equal. unfold unsafe_point, unsafe_floor.
    bool_goal. left. left. left. right. qlra.
  - intros Hb. f_equal. unfold unsafe_point, unsafe_norm, norm_ge_row.
    bool_goal. right. qlra.
Qed.

Lemma boundary_points_classification_witness :
  let row := [-1.0; 0.5; 0; 0; 0; 0] in
  safe_mask_fn [row] = Some [false] ∧ unsafe_mask_fn [row] = Some [true] ∧
  on_box_boundary (-1.0, -0.5) (-0.4, 0.5) (-1.0) 0.5 ∧
  [true] !! 0%nat = Some true.
Proof.
  split; [vm_compute; reflexivity|]. split; [vm_compute; reflexivity|].
  assert (Hb : on_box_boundary (-1.0, -0.5) (-0.4, 0.5) (-1.0) 0.5).
  { unfold on_box_boundary, in_box. simpl. repeat split; qlra. }
  split; [exact Hb|].
  pose proof (boundary_points_classification
                [[-1.0; 0.5; 0; 0; 0; 0]] [false] [true] 0 [-1.0; 0.5; 0; 0; 0; 0]
                (-1.0) 0.5 eq_refl eq_refl eq_refl eq_refl eq_refl) as H.
  exact (proj1 (proj2 (proj2 (proj2 (proj2 (proj2 H))))) Hb).
Defined.

(** The boundary of a safe-exclusion box needs no membership at all: one
    coordinate on a side already satisfies the condition. *)
Lemma safe_obs1_on_side px pz :
  px == -0.4 ∨ pz == 0.6 → safe_obs1 px pz = true.
Proof.
  intros Hb. unfold safe_obs1. bool_goal.
  destruct Hb as [Hb|Hb]; rewrite Hb; [left; right|right; right]; qlra.
Qed.

End Boundary.

(** ** Python integers and slices *)

Section PyFacts.

Lemma int_nonneg q : 0 <= q → Py.int q = Qfloor q ∧ (0 <= Py.int q)%Z.
Proof.
  destruct q as [n d]. unfold Qle, Py.int. simpl. intros Hn.
  assert (0 <= n)%Z by lia.
  rewrite Z.quot_div_nonneg by lia. split; [reflexivity|].
  apply Z.div_pos; lia.
Qed.

Lemma slice_index_nonneg len k :
  (0 <= k)%Z → Py.slice_index len k = Nat.min (Z.to_nat k) len.
Proof.
  intros Hk. unfold Py.slice_index.
  destruct (Z.ltb_spec k 0); [lia|reflexivity].
Qed.




Lemma pow2_pos e : 0 < Py.pow2 e.
Proof.
  unfold Py.pow2. destruct (Z.leb_spec 0 e).
  - change 0 with (inject_Z 0). rewrite <- Zlt_Qlt. by apply Z.pow_pos_nonneg.
  - apply Qinv_lt_0_compat. change 0 with (inject_Z 0). rewrite <- Zlt_Qlt.
    apply Z.pow_pos_nonneg; lia.
Qed.

Lemma pow2_nonneg e : (0 <= e)%Z → Py.pow2 e = inject_Z (2 ^ e).
Proof. intros He. unfold Py.pow2. by destruct (Z.leb_spec 0 e); [|lia]. Qed.

Lemma pow2_inv e : (e <= 0)%Z → Py.pow2 e * inject_Z (2 ^ (- e)) == 1.
Proof.
  intros He. unfold Py.pow2. destruct (Z.leb_spec 0 e).
  - assert (e = 0%Z) as -> by lia. reflexivity.
  - rewrite Qmult_comm. apply Qmult_inv_r.
    assert (0 < inject_Z (2 ^ (- e))); [|qlra].
    change 0 with (inject_Z 0). rewrite <- Zlt_Qlt. apply Z.pow_pos_nonneg; lia.
Qed.

Lemma round_half_even_floor q :
  (Qfloor q <= Py.round_half_even q <= Qfloor q + 1)%Z.
Proof.
  unfold Py.round_half_even.
  destruct (Qcompare _ _); [destruct (Z.even _)| |]; lia.
Qed.

Lemma round_half_even_ge q n : inject_Z n <= q → (n <= Py.round_half_even q)%Z.
Proof.
  intros Hn. apply Qfloor_resp_le in Hn. rewrite Qfloor_Z in Hn.
  pose proof (round_half_even_floor q). lia.
Qed.

Lemma round_half_even_le q n : q <= inject_Z n → (Py.round_half_even q <= n)%Z.
Proof.
  intros Hn. pose proof (Qfloor_resp_le _ _ Hn) as Hf. rewrite Qfloor_Z in Hf.
  destruct (Z.eq_dec (Qfloor q) n) as [Heq|Hne].
  - unfold Py.round_half_even.
    assert (Hlt : q - inject_Z (Qfloor q) < 1 # 2).
    { rewrite Heq. qlra. }
    rewrite Qlt_alt in Hlt. rewrite Hlt. lia.
  - pose proof (round_half_even_floor q). lia.
Qed.

Lemma ulp_exponent_pos x :
  (0 < Py.ulp_exponent x)%Z → inject_Z (2 ^ 52 * 2 ^ Py.ulp_exponent x) <= x.
Proof.
  unfold Py.ulp_exponent, Py.binade. intros He.
  destruct (Qle_bool 1 x) eqn:Hx.
  - apply Qle_bool_iff in Hx.
    assert (Hf : (1 <= Qfloor x)%Z).
    { apply Qfloor_resp_le in Hx. by change 1 with (inject_Z 1) in Hx; rewrite Qfloor_Z in Hx. }
    pose proof (Z.log2_spec (Qfloor x) ltac:(lia)) as [Hlo _].
    rewrite Z.max_l in * by lia.
    rewrite <- Z.pow_add_r by lia.
    replace (52 + (Z.log2 (Qfloor x) - 52))%Z with (Z.log2 (Qfloor x)) by lia.
    eapply Qle_trans; [|apply Qfloor_le]. by rewrite <- Zle_Qle.
  - pose proof (Z.log2_up_nonneg (Qceiling (/ x))). lia.
Qed.

Lemma round_pos_ge x K :
  0 < x → (K <= 2 ^ 53)%Z → inject_Z K <= x → inject_Z K <= Py.round_pos x.
Proof.
  intros Hx HK Hle. unfold Py.round_pos. set (e := Py.ulp_exponent x).
  pose proof (pow2_pos e) as Hp.
  destruct (Z.le_gt_cases e 0) as [He|He].
  - pose proof (pow2_inv e He) as Hinv. set (c := (2 ^ (- e))%Z) in *.
    assert (Hm : (K * c <= Py.round_half_even (x / Py.pow2 e))%Z).
    { apply round_half_even_ge, Qle_shift_div_l; [done|].
      rewrite inject_Z_mult.
      assert (E : inject_Z K * inject_Z c * Py.pow2 e == inject_Z K * (Py.pow2 e * inject_Z c))
        by ring.
      rewrite E, Hinv. qlra. }
    rewrite Zle_Qle, inject_Z_mult in Hm.
    assert (E : inject_Z K == inject_Z K * inject_Z c * Py.pow2 e).
    { assert (E' : inject_Z K * inject_Z c * Py.pow2 e
                   == inject_Z K * (Py.pow2 e * inject_Z c)) by ring.
      rewrite E', Hinv. ring. }
    rewrite E. apply Qmult_le_compat_r; [done|qlra].
  - pose proof (ulp_exponent_pos x He) as Hbig. fold e in Hbig.
    rewrite pow2_nonneg in * by lia.
    assert (Hm : (2 ^ 52 <= Py.round_half_even (x / inject_Z (2 ^ e)))%Z).
    { apply round_half_even_ge, Qle_shift_div_l; [done|].
      by rewrite <- inject_Z_mult. }
    rewrite <- inject_Z_mult, <- Zle_Qle.
    assert (2 ^ 1 <= 2 ^ e)%Z by (apply Z.pow_le_mono_r; lia).
    change (2 ^ 53)%Z with (2 ^ 52 * 2 ^ 1)%Z in HK.
    nia.
Qed.

Lemma round_pos_le x K :
  0 < x → (K <= 2 ^ 53)%Z → x <= inject_Z K → Py.round_pos x <= inject_Z K.
Proof.
  intros Hx HK Hle. unfold Py.round_pos. set (e := Py.ulp_exponent x).
  pose proof (pow2_pos e) as Hp.
  destruct (Z.le_gt_cases e 0) as [He|He].
  - pose proof (pow2_inv e He) as Hinv. set (c := (2 ^ (- e))%Z) in *.
    assert (Hm : (Py.round_half_even (x / Py.pow2 e) <= K * c)%Z).
    { apply round_half_even_le, Qle_shift_div_r; [done|].
      rewrite inject_Z_mult.
      assert (E : inject_Z K * inject_Z c * Py.pow2 e == inject_Z K * (Py.pow2 e * inject_Z c))
        by ring.
      rewrite E, Hinv. qlra. }
    rewrite Zle_Qle, inject_Z_mult in Hm.
    assert (E : inject_Z K == inject_Z K * inject_Z c * Py.pow2 e).
    { assert (E' : inject_Z K * inject_Z c * Py.pow2 e
                   == inject_Z K * (Py.pow2 e * inject_Z c)) by ring.
      rewrite E', Hinv. ring. }
    rewrite E. apply Qmult_le_compat_r; [done|qlra].
  - pose proof (ulp_exponent_pos x He) as Hbig. fold e in Hbig.
    rewrite pow2_nonneg in * by lia.
    assert (H2 : (2 ^ 1 <= 2 ^ e)%Z) by (apply Z.pow_le_mono_r; lia).
    assert (HKx : (2 ^ 52 * 2 ^ e <= K)%Z).
    { rewrite Zle_Qle. by eapply Qle_trans. }
    assert (Hm : (Py.round_half_even (x / inject_Z (2 ^ e)) <= 2 ^ 52)%Z).
    { apply round_half_even_le, Qle_shift_div_r; [done|].
      rewrite <- inject_Z_mult. eapply Qle_trans; [exact Hle|].
      rewrite <- Zle_Qle. change (2 ^ 53)%Z with (2 ^ 52 * 2 ^ 1)%Z in HK. nia. }
    rewrite <- inject_Z_mult, <- Zle_Qle. nia.
Qed.

(** Rounding to the nearest double never crosses an integer of magnitude
    up to [2 ** 53] (these integers are doubles). *)
Lemma float_round_ge x K :
  (- 2 ^ 53 <= K <= 2 ^ 53)%Z → inject_Z K <= x → inject_Z K <= Py.float_round x.
Proof.
  intros [HK1 HK2] Hle. unfold Py.float_round.
  destruct (Qcompare x 0) eqn:Hc.
  - apply Qeq_alt in Hc. qlra.
  - apply Qlt_alt in Hc.
    assert (Hr : Py.round_pos (- x) <= inject_Z (- K)).
    { apply round_pos_le; [qlra|lia|]. rewrite inject_Z_opp. qlra. }
    rewrite inject_Z_opp in Hr. qlra.
  - apply Qgt_alt in Hc. apply round_pos_ge; [qlra|lia|done].
Qed.

Lemma float_round_le x K :
  (- 2 ^ 53 <= K <= 2 ^ 53)%Z → x <= inject_Z K → Py.float_round x <= inject_Z K.
Proof.
  intros [HK1 HK2] Hle. unfold Py.float_round.
  destruct (Qcompare x 0) eqn:Hc.
  - apply Qeq_alt in Hc. qlra.
  - apply Qlt_alt in Hc.
    assert (Hr : inject_Z (- K) <= Py.round_pos (- x)).
    { apply round_pos_ge; [qlra|lia|]. rewrite inject_Z_opp. qlra. }
    rewrite inject_Z_opp in Hr. qlra.
  - apply Qgt_alt in Hc. apply round_pos_le; [qlra|lia|done].
Qed.

Lemma float_of_int_exact n :
  (- 2 ^ 53 <= n <= 2 ^ 53)%Z → Py.float_of_int n == inject_Z n.
Proof.
  intros Hn. apply Qle_antisym.
  - apply float_round_le; [done|qlra].
  - apply float_round_ge; [done|qlra].
Qed.

(** [int] truncates toward zero, so it never crosses an integer. *)
Lemma int_ge t a : inject_Z a <= t → (a <= Py.int t)%Z.
Proof.
  intros Ha. destruct (Qlt_le_dec t 0) as [Hneg|Hpos].
  - destruct t as [n d]. unfold Qlt, Qle, Py.int in *. simpl in *.
    apply Z.quot_le_lower_bound; lia.
  - destruct (int_nonneg t Hpos) as [-> _].
    apply Qfloor_resp_le in Ha. by rewrite Qfloor_Z in Ha.
Qed.

Lemma int_le t b : t <= inject_Z b → (Py.int t <= b)%Z.
Proof.
  intros Hb. destruct (Qlt_le_dec t 0) as [Hneg|Hpos].
  - destruct t as [n d]. unfold Qlt, Qle, Py.int in *. simpl in *.
    assert (Hq : (Z.quot n (Z.pos d) <= 0)%Z) by (apply Z.quot_le_upper_bound; lia).
    destruct (Z.le_gt_cases 0 b); [lia|].
    replace n with (- - n)%Z by lia. rewrite Z.quot_opp_l by lia.
    assert (- b <= Z.quot (- n) (Z.pos d))%Z; [|lia].
    apply Z.quot_le_lower_bound; lia.
  - destruct (int_nonneg t Hpos) as [-> _].
    rewrite Zle_Qle. eapply Qle_trans; [apply Qfloor_le|done].
Qed.


End PyFacts.

(** ** The data module *)

Section DataModuleFacts.
Import Tensor DataGeneration DataModule.

Context {arith : TorchArith}.
Variable N_DIMS : nat.
Variable rand : nat → nat → nat → Q.








(** The double product [N * split] lies between any two integers of
    magnitude up to [2 ** 53] that enclose the exact product. *)
Lemma split_pt_ge (N0 : nat) (s0 : Q) (a : Z) :
  (Z.of_nat N0 <= 2 ^ 53)%Z → (- 2 ^ 53 <= a <= 2 ^ 53)%Z →
  inject_Z a <= inject_Z (Z.of_nat N0) * s0 → (a <= split_pt N0 s0)%Z.
Proof.
  intros HN Ha Hle. unfold split_pt, Py.float_mul.
  apply int_ge, float_round_ge; [done|].
  by rewrite float_of_int_exact by lia.
Qed.

Lemma split_pt_le (N0 : nat) (s0 : Q) (b : Z) :
  (Z.of_nat N0 <= 2 ^ 53)%Z → (- 2 ^ 53 <= b <= 2 ^ 53)%Z →
  inject_Z (Z.of_nat N0) * s0 <= inject_Z b → (split_pt N0 s0 <= b)%Z.
Proof.
  intros HN Hb Hle. unfold split_pt, Py.float_mul.
  apply int_le, float_round_le; [done|].
  by rewrite float_of_int_exact by lia.
Qed.



End DataModuleFacts.

(** ** The controller: one batch element *)

Section ElementFacts.
Import Tensor Cvx ObsMPC.
Context {dynamics_model : ObservableSystem} {cp : Solver} {np : Numpy}.

Lemma append_constraints_foldl (batch_obs : list vec2) : ∀ acc,
  foldl (λ constraints o_i, constraints ++ [QuadFormP_ge o_i 1.25]) acc batch_obs =
  acc ++ ((λ o_i, QuadFormP_ge o_i 1.25) <$> batch_obs).
Proof.
  induction batch_obs as [|o rest IH]; intros acc; simpl.
  - by rewrite app_nil_r.
  - rewrite IH, <- app_assoc. reflexivity.
Qed.

(** The Stage 1 constraint list: [P >> 0], then one constraint per detected
    point, in order. *)
Lemma stage1_constraints_eq batch_obs :
  stage1_constraints batch_obs =
  PSD_P :: ((λ o_i, QuadFormP_ge o_i 1.25) <$> batch_obs).
Proof. unfold stage1_constraints. by rewrite append_constraints_foldl. Qed.

Lemma optimal_eqb prob :
  String.eqb (status (solve prob)) "optimal" = true ↔ optimal prob.
Proof. unfold optimal. apply String.eqb_eq. Qed.

Lemma not_optimal_eqb prob :
  String.eqb (status (solve prob)) "optimal" = false ↔ ¬ optimal prob.
Proof. unfold optimal. apply String.eqb_neq. Qed.

Ltac run_M :=
  unfold mbind, M_bind, mret, M_ret, prob_solve, call_u_nominal, or_raise, raise;
  cbn beta iota zeta.

(** Stage 1 not optimal: [continue] right after the first solve. *)
Lemma solve_element_stage1_skip x_row batch_obs tr :
  ¬ optimal (stage1_problem batch_obs) →
  solve_element x_row batch_obs tr =
  (Some None, tr ++ [CallSolve (stage1_problem batch_obs)]).
Proof.
  intros H. apply not_optimal_eqb in H. unfold solve_element. run_M.
  fold (stage1_problem batch_obs). by rewrite H.
Qed.

(** Stage 1 optimal but no heading component: [x[batch_idx, 2]] raises. *)
Lemma solve_element_no_heading x_row batch_obs tr :
  optimal (stage1_problem batch_obs) → x_row !! 2%nat = None →
  solve_element x_row batch_obs tr =
  (None, tr ++ [CallSolve (stage1_problem batch_obs)]).
Proof.
  intros H Hx. apply optimal_eqb in H. unfold solve_element. run_M.
  fold (stage1_problem batch_obs). by rewrite H, Hx.
Qed.

(** Stage 2 not optimal: [continue] right after the second solve. *)
Lemma solve_element_stage2_skip a b theta rest batch_obs tr :
  optimal (stage1_problem batch_obs) →
  ¬ optimal (stage2_problem a b theta batch_obs) →
  solve_element (a :: b :: theta :: rest) batch_obs tr =
  (Some None, tr ++ [CallSolve (stage1_problem batch_obs);
                     CallSolve (stage2_problem a b theta batch_obs)]).
Proof.
  intros H1 H2. apply optimal_eqb in H1. apply not_optimal_eqb in H2.
  unfold solve_element. run_M.
  fold (stage1_problem batch_obs). rewrite H1. simpl.
  fold (stage1_P_opt batch_obs). fold (stage2_problem a b theta batch_obs).
  rewrite H2. simpl. by rewrite <- app_assoc.
Qed.

(** Both optimal: the nominal controller is queried with the shifted state
    and its squeezed answer is the row to assign. *)
Lemma solve_element_update a b theta rest batch_obs tr :
  both_optimal a b theta batch_obs →
  let g := x_target_global a b theta batch_obs in
  let x_shifted := [- g.1; - g.2; theta] in
  solve_element (a :: b :: theta :: rest) batch_obs tr =
  (Some <$> squeeze (u_nominal [x_shifted]),
   tr ++ [CallSolve (stage1_problem batch_obs);
          CallSolve (stage2_problem a b theta batch_obs);
          CallNominal [x_shifted]]).
Proof.
  intros [H1 H2] g x_shifted. apply optimal_eqb in H1, H2.
  unfold solve_element. run_M.
  fold (stage1_problem batch_obs). rewrite H1. simpl.
  fold (stage1_P_opt batch_obs). fold (stage2_problem a b theta batch_obs).
  rewrite H2. simpl.
  subst x_shifted g. unfold x_target_global, stage2_x_target, matvec. simpl.
  rewrite <- !app_assoc. simpl.
  by destruct (squeeze (u_nominal _)).
Qed.

(** The calls an element makes and its outcome do not depend on the calls
    made before it. *)
Lemma solve_element_frame x_row batch_obs :
  ∃ ev, ∀ tr,
    solve_element x_row batch_obs tr = (element_row x_row batch_obs, tr ++ ev).
Proof.
  unfold element_row.
  destruct (String.eqb (status (solve (stage1_problem batch_obs))) "optimal") eqn:E1.
  - apply optimal_eqb in E1.
    destruct x_row as [|a [|b [|theta rest]]].
    1-3: eexists; intros tr;
         rewrite !(solve_element_no_heading _ _ _ E1) by reflexivity; reflexivity.
    destruct (String.eqb (status (solve (stage2_problem a b theta batch_obs))) "optimal") eqn:E2.
    + apply optimal_eqb in E2. eexists. intros tr.
      rewrite !(solve_element_update _ _ _ _ _ _ (conj E1 E2)). reflexivity.
    + apply not_optimal_eqb in E2. eexists. intros tr.
      rewrite !(solve_element_stage2_skip _ _ _ _ _ _ E1 E2). reflexivity.
  - apply not_optimal_eqb in E1. eexists. intros tr.
    rewrite !(solve_element_stage1_skip _ _ _ E1). reflexivity.
Qed.

Lemma solve_element_value x_row batch_obs tr :
  (solve_element x_row batch_obs tr).1 = element_row x_row batch_obs.
Proof. destruct (solve_element_frame x_row batch_obs) as [ev H]. by rewrite H. Qed.

End ElementFacts.

(** ** The controller: the batch loop *)

Section LoopFacts.
Import Tensor Cvx ObsMPC.
Context {dynamics_model : ObservableSystem} {cp : Solver} {np : Numpy}.

Lemma loop_body_value x obs i u0 tr u1 :
  (loop_body x obs i u0 tr).1 = Some u1 →
  ∃ batch_obs x_row r,
    obs !! i = Some batch_obs ∧ x !! i = Some x_row ∧
    element_row x_row batch_obs = Some r ∧
    u1 = match r with None => u0 | Some row => <[i := row]> u0 end.
Proof.
  unfold loop_body, mbind, M_bind, or_raise, raise, mret, M_ret. intros H.
  destruct (obs !! i) as [batch_obs|]; [|discriminate].
  destruct (x !! i) as [x_row|]; [|discriminate].
  pose proof (solve_element_value x_row batch_obs tr) as Hv.
  destruct (solve_element x_row batch_obs tr) as [[r|] tr']; simpl in *; [|discriminate].
  exists batch_obs, x_row, r. repeat split; try done.
  destruct r as [row|]; simpl in H.
  - unfold assign_row, mret, M_ret, raise in H.
    destruct (length row =? n_controls)%nat; simpl in H; congruence.
  - congruence.
Qed.

(** The loop writes slot [i] only in iteration [i], and only with the row
    that element decided. *)
Lemma for_range_value x obs range : ∀ u0 tr out,
  NoDup range →
  (for_range (loop_body x obs) range u0 tr).1 = Some out →
  length out = length u0 ∧
  (∀ i, i ∉ range → out !! i = u0 !! i) ∧
  (∀ i, i ∈ range → (i < length u0)%nat →
     ∃ batch_obs x_row r,
       obs !! i = Some batch_obs ∧ x !! i = Some x_row ∧
       element_row x_row batch_obs = Some r ∧
       out !! i = match r with None => u0 !! i | Some row => Some row end).
Proof.
  induction range as [|j rest IH]; intros u0 tr out Hnd Hrun; simpl in Hrun.
  - unfold mret, M_ret in Hrun. simpl in Hrun. injection Hrun as <-.
    split; [done|]. split; [done|]. intros i Hi. by apply elem_of_nil in Hi.
  - apply NoDup_cons in Hnd as [Hj Hnd].
    unfold mbind, M_bind in Hrun.
    destruct (loop_body x obs j u0 tr) as [[u1|] tr1] eqn:Hbody; [|discriminate].
    assert (Hb : (loop_body x obs j u0 tr).1 = Some u1) by (by rewrite Hbody).
    apply loop_body_value in Hb as (bo & xr & r & Hbo & Hxr & Hr & Hu1).
    assert (Hlen1 : length u1 = length u0).
    { subst u1. destruct r; [apply length_insert|done]. }
    destruct (IH u1 tr1 out Hnd Hrun) as (Hlen & Hout & Hin).
    split; [congruence|]. split.
    + intros i Hi. apply not_elem_of_cons in Hi as [Hij Hi].
      rewrite (Hout i Hi). subst u1. destruct r; [|done].
      by apply list_lookup_insert_ne.
    + intros i Hi Hlt. apply elem_of_cons in Hi as [->|Hi].
      * exists bo, xr, r. repeat split; try done.
        rewrite (Hout j Hj). subst u1. destruct r; [|done].
        by apply list_lookup_insert_eq.
      * assert (i ≠ j) by (intros ->; contradiction).
        destruct (Hin i Hi) as (bo' & xr' & r' & ? & ? & ? & Hoi); [lia|].
        exists bo', xr', r'. repeat split; try done.
        rewrite Hoi. destruct r'; [done|]. subst u1. destruct r; [|done].
        by apply list_lookup_insert_ne.
Qed.

(** Row [i] of the result of [u]: the row element [i] decided, or the zero
    row when it was skipped, with the gain and the clamp applied. *)
Lemma u_lookup x tr out :
  (u x tr).1 = Some out →
  length out = length x ∧
  ∀ i x_row, x !! i = Some x_row →
    ∃ batch_obs r,
      get_observations x !! i = Some batch_obs ∧
      element_row x_row batch_obs = Some r ∧
      out !! i = Some (scale_clamp (default (replicate n_controls 0) r)).
Proof.
  unfold u. intros Hrun. unfold mbind, M_bind in Hrun.
  destruct (for_range _ _ _ tr) as [[u1|] tr1] eqn:Hloop; [|discriminate].
  assert (Hl : (for_range (loop_body x (get_observations x)) (seq 0 (length x))
                  (replicate (length x) (replicate n_controls 0)) tr).1 = Some u1)
    by (by rewrite Hloop).
  apply for_range_value in Hl as (Hlen & _ & Hin); [|apply NoDup_seq].
  rewrite length_replicate in Hlen.
  unfold scale_column0, raise, mret, M_ret in Hrun.
  destruct (n_controls =? 0)%nat; [discriminate|].
  unfold scale_clamp. destruct control_limits as [u_upper u_lower].
  unfold clamp, raise, mret, M_ret in Hrun.
  destruct (_ && _); [|discriminate]. simpl in Hrun. injection Hrun as <-.
  split; [by rewrite !length_fmap|].
  intros i x_row Hx.
  assert (Hi : (i < length x)%nat) by (by eapply lookup_lt_Some).
  destruct (Hin i) as (bo & xr & r & Hbo & Hxr & Hr & Hu1).
  { apply elem_of_seq. lia. }
  { by rewrite length_replicate. }
  assert (xr = x_row) by congruence. subst xr.
  exists bo, r. split; [done|]. split; [done|].
  rewrite !list_lookup_fmap, Hu1.
  destruct r as [row|]; simpl; [done|].
  rewrite lookup_replicate_2 by done. reflexivity.
Qed.

(** *** The controller returns when the collaborators keep to their
    interface *)

Lemma element_row_total x_row batch_obs :
  (3 <= length x_row)%nat →
  (∀ xs, ∃ row, u_nominal [xs] = [row] ∧ length row = n_controls) →
  ∃ r, element_row x_row batch_obs = Some r ∧
       ∀ row, r = Some row → length row = n_controls.
Proof.
  intros Hlen Hnom. unfold element_row.
  destruct (String.eqb (status (solve (stage1_problem batch_obs))) "optimal") eqn:E1.
  - apply optimal_eqb in E1.
    destruct x_row as [|a [|b [|theta rest]]]; simpl in Hlen; try lia.
    destruct (String.eqb (status (solve (stage2_problem a b theta batch_obs))) "optimal") eqn:E2.
    + apply optimal_eqb in E2.
      rewrite (solve_element_update _ _ _ _ _ _ (conj E1 E2)). cbn [fst].
      destruct (Hnom [- (x_target_global a b theta batch_obs).1;
                      - (x_target_global a b theta batch_obs).2; theta])
        as (row & -> & Hrow).
      simpl. eexists. split; [reflexivity|]. by intros ? [= <-].
    + apply not_optimal_eqb in E2.
      rewrite (solve_element_stage2_skip _ _ _ _ _ _ E1 E2). simpl.
      eexists. split; [reflexivity|]. discriminate.
  - apply not_optimal_eqb in E1.
    rewrite (solve_element_stage1_skip _ _ _ E1). simpl.
    eexists. split; [reflexivity|]. discriminate.
Qed.

Lemma loop_body_total x obs i u0 tr batch_obs x_row :
  obs !! i = Some batch_obs → x !! i = Some x_row → (3 <= length x_row)%nat →
  (∀ xs, ∃ row, u_nominal [xs] = [row] ∧ length row = n_controls) →
  is_Some (loop_body x obs i u0 tr).1.
Proof.
  intros Hbo Hxr Hlen Hnom.
  destruct (element_row_total x_row batch_obs Hlen Hnom) as (r & Hr & Hrow).
  unfold loop_body, mbind, M_bind, or_raise, raise, mret, M_ret.
  rewrite Hbo, Hxr.
  pose proof (solve_element_value x_row batch_obs tr) as Hv. rewrite Hr in Hv.
  destruct (solve_element x_row batch_obs tr) as [o tr']. simpl in Hv. subst o.
  destruct r as [row|]; simpl; [|eauto].
  unfold assign_row, mret, M_ret. rewrite (Hrow row eq_refl), Nat.eqb_refl. simpl. eauto.
Qed.

Lemma for_range_total x obs range : ∀ u0 tr,
  (∀ i, i ∈ range → is_Some (obs !! i) ∧
                     ∃ x_row, x !! i = Some x_row ∧ (3 <= length x_row)%nat) →
  (∀ xs, ∃ row, u_nominal [xs] = [row] ∧ length row = n_controls) →
  is_Some (for_range (loop_body x obs) range u0 tr).1.
Proof.
  induction range as [|j rest IH]; intros u0 tr Hidx Hnom; simpl.
  - unfold mret, M_ret. simpl. eauto.
  - destruct (Hidx j) as ([bo Hbo] & xr & Hxr & Hlen); [by left|].
    destruct (loop_body_total x obs j u0 tr bo xr Hbo Hxr Hlen Hnom) as [u1 Hu1].
    unfold mbind, M_bind.
    destruct (loop_body x obs j u0 tr) as [o tr1]. simpl in Hu1. subst o.
    apply IH; [|done]. intros i Hi. apply Hidx. by right.
Qed.

(** [u] returns when the collaborators return, with values of the shapes
    their interface promises ([well_formed]).  A collaborator that raises,
    as [prob.solve()] can, is outside the model. *)
Lemma u_returns x tr : well_formed x → is_Some (u x tr).1.
Proof.
  intros [Hstate Hdims Hobs Hnom Hctl [Hl1 Hl2]].
  destruct (for_range_total x (get_observations x) (seq 0 (length x))
              (replicate (length x) (replicate n_controls 0)) tr) as [u1 Hu1].
  { intros i Hi. apply elem_of_seq in Hi. split.
    - apply lookup_lt_is_Some. lia.
    - destruct (lookup_lt_is_Some_2 x i) as [xr Hxr]; [lia|].
      exists xr. split; [done|].
      rewrite Forall_forall in Hstate.
      rewrite (Hstate xr); [done|]. by eapply list_elem_of_lookup_2. }
  { exact Hnom. }
  unfold u, mbind, M_bind.
  destruct (for_range _ _ _ tr) as [o tr1]. simpl in Hu1. subst o.
  unfold scale_column0, raise, mret, M_ret.
  destruct (Nat.eqb_spec n_controls 0); [contradiction|].
  destruct control_limits as [u_upper u_lower]. simpl in Hl1, Hl2.
  unfold clamp, raise, mret, M_ret. rewrite Hl1, Hl2, Nat.eqb_refl. simpl. eauto.
Qed.

End LoopFacts.

(** ** The controller: bounds, skipped elements, independence *)

Section ControllerProperties.
Import Tensor Cvx ObsMPC.
Context {dynamics_model : ObservableSystem} {cp : Solver} {np : Numpy}.

Lemma clamp_row_lookup row lo hi j v :
  clamp_row row lo hi !! j = Some v →
  ∃ v0 l h, row !! j = Some v0 ∧ lo !! j = Some l ∧ hi !! j = Some h ∧
            v = Qmin (Qmax v0 l) h.
Proof.
  unfold clamp_row. rewrite lookup_zip_with. intros H.
  destruct (row !! j) as [v0|]; [|discriminate]. simpl in H.
  destruct (zip lo hi !! j) as [[l h]|] eqn:Hz; [|discriminate]. simpl in H.
  apply lookup_zip_with_Some in Hz as (l' & h' & [= <- <-] & Hl & Hh).
  injection H as <-. eauto 10.
Qed.

Lemma clamp_between (v lo hi : Q) : lo <= hi → lo <= Qmin (Qmax v lo) hi <= hi.
Proof.
  intros H. split.
  - apply Q.min_glb; [apply Q.le_max_r|exact H].
  - apply Q.le_min_r.
Qed.

(** With the minimum above the maximum, [torch.clamp] returns the maximum. *)
Lemma clamp_swapped (v lo hi : Q) : lo <= hi → Qmin (Qmax v hi) lo == lo.
Proof.
  intros H. apply Q.min_r. eapply Qle_trans; [exact H|apply Q.le_max_r].
Qed.

Lemma scale_clamp_lookup row j v :
  scale_clamp row !! j = Some v →
  ∃ v0 l h, control_limits.2 !! j = Some l ∧ control_limits.1 !! j = Some h ∧
            v = Qmin (Qmax v0 l) h.
Proof.
  unfold scale_clamp. destruct control_limits as [u_upper u_lower]. simpl.
  intros H. apply clamp_row_lookup in H as (v0 & l & h & _ & Hl & Hh & ->).
  eauto 10.
Qed.

(** Every row of the result went through the final clamp. *)
Lemma u_row_clamped x tr out i row :
  (u x tr).1 = Some out → out !! i = Some row →
  ∃ row0, row = scale_clamp row0.
Proof.
  intros Hrun Hi. destruct (u_lookup x tr out Hrun) as [Hlen Hrows].
  destruct (lookup_lt_is_Some_2 x i) as [x_row Hx].
  { rewrite <- Hlen. by eapply lookup_lt_Some. }
  destruct (Hrows i x_row Hx) as (bo & r & _ & _ & Hout).
  rewrite Hi in Hout. injection Hout as ->. eauto.
Qed.

(** The bounds when [control_limits] returns the pair in the order in which
    [u] unpacks it, [(u_upper, u_lower)]. *)
Lemma u_within_unpacked_limits x tr out lower upper :
  control_limits = (upper, lower) →
  Forall2 Qle lower upper →
  (u x tr).1 = Some out →
  ∀ i j row v l h,
    out !! i = Some row → row !! j = Some v →
    lower !! j = Some l → upper !! j = Some h →
    l <= v <= h.
Proof.
  intros Hlim Hle Hrun i j row v l h Hi Hj Hl Hh.
  destruct (u_row_clamped x tr out i row Hrun Hi) as [row0 ->].
  apply scale_clamp_lookup in Hj as (v0 & l' & h' & Hl' & Hh' & ->).
  rewrite Hlim in Hl', Hh'. simpl in Hl', Hh'.
  assert (l' = l) by congruence. assert (h' = h) by congruence. subst l' h'.
  apply clamp_between. exact (Forall2_lookup_lr _ _ _ _ _ _ Hle Hl Hh).
Qed.

(** With [control_limits] returning [(lower, upper)], the clamp of [u] has
    its minimum and maximum exchanged and every command equals the lower
    bound. *)
Lemma u_pinned_to_lower x tr out lower upper :
  control_limits = (lower, upper) →
  Forall2 Qle lower upper →
  (u x tr).1 = Some out →
  ∀ i j row v l,
    out !! i = Some row → row !! j = Some v → lower !! j = Some l → v == l.
Proof.
  intros Hlim Hle Hrun i j row v l Hi Hj Hl.
  destruct (u_row_clamped x tr out i row Hrun Hi) as [row0 ->].
  apply scale_clamp_lookup in Hj as (v0 & l' & h' & Hl' & Hh' & ->).
  rewrite Hlim in Hl', Hh'. simpl in Hl', Hh'.
  assert (h' = l) by congruence. subst h'.
  apply clamp_swapped. exact (Forall2_lookup_lr _ _ _ _ _ _ Hle Hl Hl').
Qed.

(** C1. With [control_limits] returning the pair [(lower, upper)] of bound
    vectors, [lower <= upper] component-wise, every component [j] of every
    row of the batch returned by [u] lies in [[lower_j, upper_j]], whatever
    statuses the solver reported; the result has one row per input state,
    and [u] does return when the collaborators keep to their interface.
    The bounds hold as well when the pair comes in the order in which [u]
    unpacks it, [(upper, lower)]. *)
Theorem u_within_actuator_bounds (x : list (list Q)) (tr : list event)
    (lower upper : list Q) :
  control_limits = (lower, upper) ∨ control_limits = (upper, lower) →
  Forall2 Qle lower upper →
  (well_formed x → is_Some (u x tr).1) ∧
  ∀ out, (u x tr).1 = Some out →
    length out = length x ∧
    ∀ i j row v l h,
      out !! i = Some row → row !! j = Some v →
      lower !! j = Some l → upper !! j = Some h →
      l <= v <= h.
Proof.
  intros Hlim Hle. split; [apply u_returns|].
  intros out Hrun. split; [by apply (u_lookup x tr out)|].
  intros i j row v l h Hi Hj Hl Hh. destruct Hlim as [Hlim|Hlim].
  - pose proof (u_pinned_to_lower x tr out lower upper Hlim Hle Hrun
                  i j row v l Hi Hj Hl) as Heq.
    rewrite Heq. split; [apply Qle_refl|].
    exact (Forall2_lookup_lr _ _ _ _ _ _ Hle Hl Hh).
  - by eapply (u_within_unpacked_limits x tr out lower upper).
Qed.

(** C2. When Stage 1 or Stage 2 of batch element [i] reports a status other
    than [optimal], the loop body for [i] ends normally and leaves [u]
    unchanged, and row [i] of the result of [u] is
    [clamp(scale(zero_vector))]. *)
Theorem skipped_element_gets_clamped_zero (x : list (list Q)) (i : nat)
    (x_row : list Q) (batch_obs : list vec2) :
  x !! i = Some x_row →
  get_observations x !! i = Some batch_obs →
  some_not_optimal x_row batch_obs →
  (∀ u0 tr, (loop_body x (get_observations x) i u0 tr).1 = Some u0) ∧
  (∀ tr out, (u x tr).1 = Some out → out !! i = Some clamped_scaled_zero) ∧
  (∀ tr, well_formed x →
     ∃ out, (u x tr).1 = Some out ∧ out !! i = Some clamped_scaled_zero).
Proof.
  intros Hx Hobs Hskip.
  assert (Hrow : element_row x_row batch_obs = Some None).
  { unfold element_row. destruct Hskip as [H1|(H1 & a & b & theta & rest & -> & H2)].
    - by rewrite (solve_element_stage1_skip _ _ _ H1).
    - by rewrite (solve_element_stage2_skip _ _ _ _ _ _ H1 H2). }
  assert (Hout : ∀ tr out, (u x tr).1 = Some out → out !! i = Some clamped_scaled_zero).
  { intros tr out Hrun.
    destruct (u_lookup x tr out Hrun) as [_ Hrows].
    destruct (Hrows i x_row Hx) as (bo & r & Hbo & Hr & Hi).
    assert (bo = batch_obs) by congruence. subst bo.
    rewrite Hrow in Hr. injection Hr as <-. exact Hi. }
  split; [|split; [exact Hout|]].
  - intros u0 tr. unfold loop_body, mbind, M_bind, or_raise, mret, M_ret.
    rewrite Hobs, Hx.
    pose proof (solve_element_value x_row batch_obs tr) as Hv. rewrite Hrow in Hv.
    destruct (solve_element x_row batch_obs tr) as [o tr']. simpl in Hv. by subst o.
  - intros tr Hwf. destruct (u_returns x tr Hwf) as [out Hrun].
    exists out. split; [done|]. by eapply Hout.
Qed.

(** C9. Two batches with the same state and the same observation at index
    [i] get the same command at index [i], whatever the other elements are
    and whatever the solver reported for them. *)
Theorem no_cross_element_interaction (x x' : list (list Q)) (tr tr' : list event)
    (out out' : list (list Q)) (i : nat) :
  x !! i = x' !! i →
  get_observations x !! i = get_observations x' !! i →
  (u x tr).1 = Some out → (u x' tr').1 = Some out' →
  out !! i = out' !! i.
Proof.
  intros Hx Hobs Hrun Hrun'.
  destruct (u_lookup x tr out Hrun) as [Hlen Hrows].
  destruct (u_lookup x' tr' out' Hrun') as [Hlen' Hrows'].
  destruct (x !! i) as [x_row|] eqn:Hxi.
  - destruct (Hrows i x_row Hxi) as (bo & r & Hbo & Hr & ->).
    destruct (Hrows' i x_row (eq_sym Hx)) as (bo' & r' & Hbo' & Hr' & ->).
    assert (bo' = bo) by congruence. subst bo'.
    assert (r' = r) by congruence. by subst r'.
  - assert (x' !! i = None) as Hxi' by done.
    apply lookup_ge_None in Hxi, Hxi'.
    rewrite !lookup_ge_None_2; [done| |]; lia.
Qed.

End ControllerProperties.

(** ** The certifying solver keeps the contract of [optimal] *)

Section SceneFacts.
Import Tensor Cvx ObsMPC Scene.

Lemma square_nonneg (q : Q) : 0 <= q * q.
Proof. qnra. Qed.

Lemma sylvester_psd M : sylvester M = true → m01 M == m10 M ∧ psd_tol 0 M.
Proof.
  unfold sylvester. rewrite !andb_true_iff, !Qle_bool_iff, Qeq_bool_iff.
  intros [[[Hsym Ha] Hd] Hdet]. split; [exact Hsym|].
  intros [x y]. unfold quad_form. simpl.
  destruct M as [a b c d]. simpl in *.
  assert (Hdet' : b * b <= a * d) by (rewrite Hsym at 2; exact Hdet).
  assert (Hgoal : 0 <= a * (x * x) + 2 * b * (x * y) + d * (y * y)).
  { destruct (Qlt_le_dec 0 a) as [Hpos|Hneg].
    - pose proof (square_nonneg (a * x + b * y)) as H1.
      assert (H2 : 0 <= (a * d - b * b) * (y * y)).
      { apply Qmult_le_0_compat; [qlra|apply square_nonneg]. }
      assert (H3 : 0 <= a * (a * (x * x) + 2 * b * (x * y) + d * (y * y))).
      { assert (E : a * (a * (x * x) + 2 * b * (x * y) + d * (y * y))
                    == (a * x + b * y) * (a * x + b * y) + (a * d - b * b) * (y * y))
          by ring.
        rewrite E. qlra. }
      destruct (Qlt_le_dec (a * (x * x) + 2 * b * (x * y) + d * (y * y)) 0) as [Hlt|Hge];
        [|exact Hge].
      exfalso.
      assert (a * (a * (x * x) + 2 * b * (x * y) + d * (y * y)) < 0).
      { assert (E : 0 == a * 0) by ring. rewrite E. apply Qmult_lt_l; assumption. }
      qlra.
    - assert (Ha0 : a == 0) by qlra.
      assert (Hb0 : b * b <= 0) by (rewrite Ha0 in Hdet'; qlra).
      assert (Hb : b == 0).
      { pose proof (square_nonneg b). apply Qeq_bool_eq.
        destruct (Qeq_bool b 0) eqn:E; [done|]. apply Qeq_bool_neq in E.
        exfalso. apply E. destruct (Q_dec b 0) as [[Hlt|Hgt]|Heq]; [| |exact Heq].
        - assert (0 < (- b) * (- b)) by (apply Qmult_lt_0_compat; qlra). qlra.
        - assert (0 < b * b) by (apply Qmult_lt_0_compat; qlra). qlra. }
      rewrite Ha0, Hb.
      assert (0 <= d * (y * y)) by (apply Qmult_le_0_compat; [done|apply square_nonneg]).
      qlra. }
  assert (E : x * (a * x + b * y) + y * (c * x + d * y)
              == a * (x * x) + 2 * b * (x * y) + d * (y * y))
    by (rewrite <- Hsym; ring).
  rewrite E. qlra.
Qed.

Lemma check_satisfies sol c :
  sylvester (P_value sol) = true → check sol c = true → satisfies 0 sol c.
Proof.
  intros Hsyl Hc. destruct c as [|o_i c|P_opt c]; simpl in *.
  - by apply sylvester_psd.
  - apply Qle_bool_iff in Hc. qlra.
  - apply Qle_bool_iff in Hc. qlra.
Qed.

(** Whatever the candidate, a certified [optimal] meets every constraint
    exactly. *)
Lemma certifying_solver_sound candidate0 :
  @solver_sound (certifying_solver candidate0) 0.
Proof.
  intros prob. unfold solve, certifying_solver.
  destruct (sylvester (P_value candidate0)) eqn:Hsyl; simpl; [|discriminate].
  destruct (forallb (check candidate0) (prob_constraints prob)) eqn:Hall;
    simpl; [|discriminate].
  intros _. split.
  - intros _. by apply sylvester_psd.
  - rewrite forallb_forall in Hall. apply Forall_forall. intros c Hc.
    apply list_elem_of_In in Hc.
    assert (Hs : satisfies 0 candidate0 c) by (apply check_satisfies; auto).
    destruct c; exact Hs.
Qed.

End SceneFacts.

(** ** The controller: the two programs and the nominal query *)

Section ProgramProperties.
Import Tensor Cvx ObsMPC.
Context {dynamics_model : ObservableSystem} {cp : Solver} {np : Numpy}.

(** The loop body makes exactly the calls of [solve_element]. *)
Lemma loop_body_trace x obs i u0 tr batch_obs x_row :
  obs !! i = Some batch_obs → x !! i = Some x_row →
  (loop_body x obs i u0 tr).2 = (solve_element x_row batch_obs tr).2.
Proof.
  intros Hbo Hx. unfold loop_body, mbind, M_bind, or_raise, mret, M_ret.
  rewrite Hbo, Hx.
  destruct (solve_element x_row batch_obs tr) as [[[row|]|] tr']; simpl; try done.
  unfold assign_row, mret, M_ret, raise. by destruct (_ =? _)%nat.
Qed.

(** Once Stage 1 is optimal, the next call is the Stage 2 solve. *)
Lemma solve_element_second_call a b theta rest batch_obs tr :
  optimal (stage1_problem batch_obs) →
  ∃ more, (solve_element (a :: b :: theta :: rest) batch_obs tr).2 =
          tr ++ CallSolve (stage1_problem batch_obs)
             :: CallSolve (stage2_problem a b theta batch_obs) :: more.
Proof.
  intros H1.
  destruct (String.eqb (status (solve (stage2_problem a b theta batch_obs))) "optimal") eqn:E2.
  - apply optimal_eqb in E2.
    rewrite (solve_element_update _ _ _ _ _ _ (conj H1 E2)). simpl. eauto.
  - apply not_optimal_eqb in E2.
    rewrite (solve_element_stage2_skip _ _ _ _ _ _ H1 E2). simpl. eauto.
Qed.

(** C3, as the code has it. For a batch element whose two solves both report
    [optimal], the nominal controller is queried, after the two solves, with
    the three-component state [(-g_0, -g_1, theta)], where
    [g = R(theta) x_target] is the target in the global frame and [theta]
    the heading of [x_i]: the positions are replaced, the heading is passed
    unchanged, and no further component of [x_i] is passed. *)
Theorem nominal_query_is_target_and_heading (x : list (list Q)) (i : nat)
    (a b theta : Q) (rest : list Q) (batch_obs : list vec2)
    (u0 : list (list Q)) (tr : list event) :
  x !! i = Some (a :: b :: theta :: rest) →
  get_observations x !! i = Some batch_obs →
  both_optimal a b theta batch_obs →
  let g := matvec (rotation_mat theta) (stage2_x_target a b theta batch_obs) in
  let x_shifted := [- g.1; - g.2; theta] in
  (loop_body x (get_observations x) i u0 tr).2 =
    tr ++ [CallSolve (stage1_problem batch_obs);
           CallSolve (stage2_problem a b theta batch_obs);
           CallNominal [x_shifted]] ∧
  x_shifted !! 2%nat = (a :: b :: theta :: rest) !! 2%nat ∧
  ∀ j, (3 <= j)%nat → x_shifted !! j = None.
Proof.
  intros Hx Hobs Hopt g x_shifted. split; [|split].
  - rewrite (loop_body_trace _ _ _ _ _ _ _ Hobs Hx).
    by rewrite (solve_element_update _ _ _ _ _ _ Hopt).
  - reflexivity.
  - intros j Hj. apply lookup_ge_None_2. simpl. lia.
Qed.

(** C5, as the code has it. For a batch element that reaches Stage 2, the
    second program handed to the solver minimises
    [sum_squares(batch_x + R(theta) x_target)]; its constraint list is the
    Stage 1 list ([P >> 0] and one constraint per detected point, on the
    variable [P]) with the containment constraint
    [quad_form(x_target, P_opt) <= 0.75] appended, [P_opt] being the Stage 1
    value of [P] as fixed data; the containment constraint is the only one
    on [x_target], and both [x_target] and [P] are variables of the
    program. *)
Theorem stage2_problem_as_built (x : list (list Q)) (i : nat)
    (a b theta : Q) (rest : list Q) (batch_obs : list vec2)
    (u0 : list (list Q)) (tr : list event) :
  x !! i = Some (a :: b :: theta :: rest) →
  get_observations x !! i = Some batch_obs →
  optimal (stage1_problem batch_obs) →
  let P_opt := P_value (solve (stage1_problem batch_obs)) in
  let containment := QuadFormX_le P_opt 0.75 in
  ∃ prob more,
    (loop_body x (get_observations x) i u0 tr).2 =
      tr ++ CallSolve (stage1_problem batch_obs) :: CallSolve prob :: more ∧
    prob_objective prob = Minimize_sum_squares (a, b) (rotation_mat theta) ∧
    prob_constraints prob =
      PSD_P :: ((λ o_i, QuadFormP_ge o_i 1.25) <$> batch_obs) ++ [containment] ∧
    (∀ c, c ∈ prob_constraints prob → x_target ∈ constraint_variables c →
          c = containment) ∧
    x_target ∈ variables prob ∧ P ∈ variables prob.
Proof.
  intros Hx Hobs H1 P_opt containment.
  destruct (solve_element_second_call a b theta rest batch_obs tr H1) as [more Htr].
  exists (stage2_problem a b theta batch_obs), more.
  split; [by rewrite (loop_body_trace _ _ _ _ _ _ _ Hobs Hx)|].
  split; [reflexivity|].
  assert (Hcs : prob_constraints (stage2_problem a b theta batch_obs) =
                PSD_P :: ((λ o_i, QuadFormP_ge o_i 1.25) <$> batch_obs) ++ [containment]).
  { unfold stage2_problem. simpl. by rewrite stage1_constraints_eq. }
  split; [exact Hcs|]. split; [|split].
  - intros c Hc Hv. rewrite Hcs in Hc.
    apply elem_of_cons in Hc as [->|Hc].
    { simpl in Hv. apply list_elem_of_singleton in Hv. discriminate. }
    apply elem_of_app in Hc as [Hc|Hc].
    + apply list_elem_of_fmap in Hc as (o & -> & _).
      simpl in Hv. apply list_elem_of_singleton in Hv. discriminate.
    + by apply list_elem_of_singleton in Hc.
  - unfold variables. simpl. by left.
  - unfold variables. rewrite Hcs. simpl. right. by left.
Qed.

(** The Stage 1 constraints that the second program still carries do not
    restrict the target: when Stage 1 was certified exactly, a point is the
    [x_target] part of a feasible assignment of the second program iff it
    meets the containment constraint. *)
Lemma stage2_feasible_targets a b theta batch_obs (xt : vec2) :
  solver_sound 0 →
  optimal (stage1_problem batch_obs) →
  (∃ st Pv, Forall (satisfies 0 (mkSolution st Pv xt))
                   (prob_constraints (stage2_problem a b theta batch_obs)))
  ↔ quad_form xt (stage1_P_opt batch_obs) <= 0.75 + 0.
Proof.
  intros Hsound H1. unfold stage2_problem. simpl. split.
  - intros (st & Pv & Hall). apply Forall_app in Hall as [_ Hlast].
    apply Forall_inv in Hlast. exact Hlast.
  - intros Hin. destruct (Hsound _ H1) as [_ Hsat].
    exists "optimal", (stage1_P_opt batch_obs). apply Forall_app. split.
    + unfold stage1_problem in Hsat at 2. simpl in Hsat.
      rewrite stage1_constraints_eq in Hsat |- *.
      apply Forall_cons in Hsat as [Hpsd Hpts].
      constructor; [exact Hpsd|].
      rewrite Forall_fmap in Hpts |- *.
      eapply Forall_impl; [exact Hpts|]. intros o Ho. exact Ho.
    + by constructor.
Qed.

(** C4. Under the contract of the solver (an [optimal] status certifies the
    constraints up to [eps]), when the Stage 1 solve of a batch element
    reports [optimal], the value of [P] it returns satisfies
    [o_i^T P o_i >= 1.25 - eps] for every detected point [o_i] of the
    element, is symmetric, and is positive semi-definite up to [eps]; that
    solve is the first call the element makes. *)
Theorem stage1_ellipsoid_excludes_points (eps : Q) (batch_obs : list vec2) :
  solver_sound eps →
  optimal (stage1_problem batch_obs) →
  let P_opt := P_value (solve (stage1_problem batch_obs)) in
  (∀ x_row tr, ∃ more, (solve_element x_row batch_obs tr).2 =
                        tr ++ CallSolve (stage1_problem batch_obs) :: more) ∧
  (∀ o_i, o_i ∈ batch_obs → 1.25 - eps <= quad_form o_i P_opt) ∧
  m01 P_opt == m10 P_opt ∧
  psd_tol eps P_opt.
Proof.
  intros Hsound H1 P_opt.
  destruct (Hsound _ H1) as [Hsym Hsat].
  unfold stage1_problem in Hsat at 2. simpl in Hsat.
  rewrite stage1_constraints_eq in Hsat.
  apply Forall_cons in Hsat as [Hpsd Hpts].
  split; [|split; [|split]].
  - intros x_row tr. destruct (solve_element_frame x_row batch_obs) as [ev Hev].
    destruct x_row as [|a [|b [|theta rest]]].
    1-3: rewrite (solve_element_no_heading _ _ _ H1) by reflexivity; simpl; eauto.
    destruct (solve_element_second_call a b theta rest batch_obs tr H1) as [more ->].
    eauto.
  - intros o_i Ho. rewrite Forall_forall in Hpts.
    apply (Hpts (QuadFormP_ge o_i 1.25)).
    apply list_elem_of_fmap. eauto.
  - by apply Hsym.
  - exact Hpsd.
Qed.

(** C6. Under the contract of the solver, for a batch element whose two
    solves report [optimal]: the element makes exactly three calls, the
    Stage 1 solve, the Stage 2 solve and the query to the nominal
    controller; the Stage 2 program holds the constraint
    [quad_form(x_target, P_opt) <= 0.75], with [P_opt] the value of [P]
    returned by the Stage 1 solve; the target point returned by the Stage 2
    solve satisfies [x_target^T P_opt x_target <= 0.75 + eps]; and it is this
    target, rotated to the global frame, that the query to the nominal
    controller is shifted by, the answer being the row of the element. *)
Theorem stage2_target_in_shrunk_ellipsoid (eps a b theta : Q) (rest : list Q)
    (batch_obs : list vec2) (tr : list event) :
  solver_sound eps →
  both_optimal a b theta batch_obs →
  let P_opt := P_value (solve (stage1_problem batch_obs)) in
  let x_target_opt := x_target_value (solve (stage2_problem a b theta batch_obs)) in
  let g := matvec (rotation_mat theta) x_target_opt in
  solve_element (a :: b :: theta :: rest) batch_obs tr =
    (Some <$> squeeze (u_nominal [[- g.1; - g.2; theta]]),
     tr ++ [CallSolve (stage1_problem batch_obs);
            CallSolve (stage2_problem a b theta batch_obs);
            CallNominal [[- g.1; - g.2; theta]]]) ∧
  QuadFormX_le P_opt 0.75 ∈ prob_constraints (stage2_problem a b theta batch_obs) ∧
  quad_form x_target_opt P_opt <= 0.75 + eps.
Proof.
  intros Hsound Hopt P_opt x_target_opt g.
  split; [exact (solve_element_update a b theta rest batch_obs tr Hopt)|].
  destruct Hopt as [H1 H2].
  split.
  - unfold stage2_problem. simpl. apply elem_of_app. right. by left.
  - destruct (Hsound _ H2) as [_ Hsat].
    unfold stage2_problem in Hsat at 2. simpl in Hsat.
    apply Forall_app in Hsat as [_ Hlast].
    apply Forall_inv in Hlast. exact Hlast.
Qed.

End ProgramProperties.

(** ** Evaluations on the concrete scene *)

Section Evaluations.
Import Tensor Cvx ObsMPC Scene DataGeneration DataModule.

Lemma u_within_actuator_bounds_witness :
  let dm := system (lower, upper) in
  let out := [[-1; -1]] in
  (@control_limits dm = (lower, upper) ∨ @control_limits dm = (upper, lower)) ∧
  Forall2 Qle lower upper ∧
  (@u dm (certifying_solver candidate) numpy [[0; 0; 0]] []).1 = Some out ∧
  length out = 1%nat ∧
  ∀ i j row v l h,
    out !! i = Some row → row !! j = Some v →
    lower !! j = Some l → upper !! j = Some h → l <= v <= h.
Proof.
  assert (Hle : Forall2 Qle lower upper) by (repeat constructor; discriminate).
  split; [by left|]. split; [exact Hle|]. split; [vm_compute; reflexivity|].
  apply (proj2 (@u_within_actuator_bounds (system (lower, upper))
                  (certifying_solver candidate) numpy [[0; 0; 0]] [] lower upper
                  (or_introl eq_refl) Hle)).
  vm_compute; reflexivity.
Defined.

Lemma skipped_element_gets_clamped_zero_witness :
  let dm := system (upper, lower) in
  let x := [[0; 0; 0]] in
  x !! 0%nat = Some [0; 0; 0] ∧
  @get_observations dm x !! 0%nat = Some square_ahead ∧
  some_not_optimal (cp := failing_solver) (np := numpy) [0; 0; 0] square_ahead ∧
  (@u dm failing_solver numpy x []).1 = Some [[0.0; 0]] ∧
  @clamped_scaled_zero dm = [0.0; 0] ∧
  ∀ tr out, (@u dm failing_solver numpy x tr).1 = Some out →
            out !! 0%nat = Some (@clamped_scaled_zero dm).
Proof.
  assert (Hskip : some_not_optimal (cp := failing_solver) (np := numpy) [0; 0; 0] square_ahead).
  { left. unfold optimal. simpl. discriminate. }
  split; [reflexivity|]. split; [reflexivity|]. split; [exact Hskip|].
  split; [vm_compute; reflexivity|]. split; [vm_compute; reflexivity|].
  exact (proj1 (proj2
    (@skipped_element_gets_clamped_zero (system (upper, lower)) failing_solver numpy
       [[0; 0; 0]] 0 [0; 0; 0] square_ahead eq_refl eq_refl Hskip))).
Defined.

Lemma no_cross_element_interaction_witness :
  let dm := system (upper, lower) in
  let x := [[0; 0; 0]; [1; 2; 0]] in
  let x' := [[5; 5; 1]; [1; 2; 0]] in
  x !! 1%nat = x' !! 1%nat ∧
  @get_observations dm x !! 1%nat = @get_observations dm x' !! 1%nat ∧
  ∃ out out',
    (@u dm (certifying_solver candidate) numpy x []).1 = Some out ∧
    (@u dm (certifying_solver candidate) numpy x' []).1 = Some out' ∧
    out !! 1%nat = out' !! 1%nat.
Proof.
  split; [reflexivity|]. split; [reflexivity|].
  eexists. eexists.
  split; [vm_compute; reflexivity|]. split; [vm_compute; reflexivity|].
  apply (@no_cross_element_interaction (system (upper, lower))
           (certifying_solver candidate) numpy
           [[0; 0; 0]; [1; 2; 0]] [[5; 5; 1]; [1; 2; 0]] [] []);
    [reflexivity|reflexivity|vm_compute; reflexivity|vm_compute; reflexivity].
Defined.

(** The scene keeps to the interface of the collaborators, so [u] returns. *)
Lemma scene_well_formed limits x :
  length limits.1 = 2%nat → length limits.2 = 2%nat →
  Forall (λ row : list Q, length row = 3%nat) x →
  @well_formed (system limits) x.
Proof.
  intros Hl1 Hl2 Hx. constructor; simpl.
  - exact Hx.
  - lia.
  - by rewrite length_fmap.
  - intros xs. eexists. split; reflexivity.
  - discriminate.
  - by split.
Qed.

(** Hence [u] returns a command for every batch of planar states, whatever
    the solver. *)
Lemma scene_u_returns (cp : Solver) x tr :
  Forall (λ row : list Q, length row = 3%nat) x →
  is_Some (@u (system (upper, lower)) cp numpy x tr).1.
Proof.
  intros Hx. apply u_returns. by apply scene_well_formed.
Qed.

Lemma nominal_query_is_target_and_heading_witness :
  let dm := system (upper, lower) in
  let cp := certifying_solver candidate in
  let x := [[0; 0; 0; 7]] in
  x !! 0%nat = Some [0; 0; 0; 7] ∧
  @get_observations dm x !! 0%nat = Some square_ahead ∧
  both_optimal (cp := cp) (np := numpy) 0 0 0 square_ahead ∧
  ∃ p1 p2 x_shifted,
    (@loop_body dm cp numpy x (@get_observations dm x) 0 [[0; 0]] []).2 =
      [] ++ [CallSolve p1; CallSolve p2; CallNominal [x_shifted]] ∧
    x_shifted !! 2%nat = Some 0 ∧ length x_shifted = 3%nat.
Proof.
  assert (Hopt : both_optimal (cp := certifying_solver candidate) (np := numpy)
                   0 0 0 square_ahead) by (split; vm_compute; reflexivity).
  split; [reflexivity|]. split; [reflexivity|]. split; [exact Hopt|].
  eexists. eexists. eexists. split.
  - exact (proj1 (@nominal_query_is_target_and_heading (system (upper, lower))
                    (certifying_solver candidate) numpy
                    [[0; 0; 0; 7]] 0 0 0 0 [7] square_ahead [[0; 0]] []
                    eq_refl eq_refl Hopt)).
  - split; reflexivity.
Defined.

(** C3, as stated, fails: with a fourth state component the query to the
    nominal controller does not carry it. *)
Lemma nominal_query_counterexample :
  let x_row := [0; 0; 0; 7] in
  ∃ p1 p2 x_shifted,
    (@solve_element (system (upper, lower)) (certifying_solver candidate) numpy
       x_row square_ahead []).2 = [CallSolve p1; CallSolve p2; CallNominal [x_shifted]] ∧
    x_row !! 3%nat = Some 7 ∧ x_shifted !! 3%nat = None ∧
    ¬ (∀ j, (2 <= j)%nat → x_shifted !! j = x_row !! j).
Proof.
  eexists. eexists. eexists. split; [vm_compute; reflexivity|].
  split; [reflexivity|]. split; [reflexivity|].
  intros H. specialize (H 3%nat ltac:(lia)). discriminate.
Qed.

Lemma stage2_problem_as_built_witness :
  let dm := system (upper, lower) in
  let cp := certifying_solver candidate in
  let x := [[0; 0; 0]] in
  x !! 0%nat = Some [0; 0; 0] ∧
  @get_observations dm x !! 0%nat = Some square_ahead ∧
  optimal (cp := cp) (stage1_problem square_ahead) ∧
  ∃ prob more,
    (@loop_body dm cp numpy x (@get_observations dm x) 0 [[0; 0]] []).2 =
      [] ++ CallSolve (stage1_problem square_ahead) :: CallSolve prob :: more ∧
    prob_constraints prob =
      PSD_P :: ((λ o_i, QuadFormP_ge o_i 1.25) <$> square_ahead)
        ++ [QuadFormX_le (P_value (solve (Solver := cp) (stage1_problem square_ahead))) 0.75].
Proof.
  assert (Hopt : optimal (cp := certifying_solver candidate) (stage1_problem square_ahead))
    by (vm_compute; reflexivity).
  split; [reflexivity|]. split; [reflexivity|]. split; [exact Hopt|].
  destruct (@stage2_problem_as_built (system (upper, lower))
              (certifying_solver candidate) numpy
              [[0; 0; 0]] 0 0 0 0 [] square_ahead [[0; 0]] []
              eq_refl eq_refl Hopt) as (prob & more & Htr & _ & Hcs & _).
  exists prob, more. split; [exact Htr|exact Hcs].
Defined.

(** C5, as stated, fails: the second program carries the five Stage 1
    constraints besides the containment constraint, and [P] is one of its
    variables. *)
Lemma stage2_single_constraint_counterexample :
  ∃ p1 p2 more,
    (@solve_element (system (upper, lower)) (certifying_solver candidate) numpy
       [0; 0; 0] square_ahead []).2 = CallSolve p1 :: CallSolve p2 :: more ∧
    prob_constraints p2 ≠
      [QuadFormX_le (P_value (solve (Solver := certifying_solver candidate) p1)) 0.75] ∧
    length (prob_constraints p2) = 6%nat ∧
    P ∈ variables p2.
Proof.
  eexists. eexists. eexists. split; [vm_compute; reflexivity|].
  split; [discriminate|]. split; [reflexivity|].
  unfold variables. simpl. right. by left.
Qed.

Lemma stage1_ellipsoid_excludes_points_witness :
  let cp := certifying_solver candidate in
  solver_sound (H := cp) 0 ∧
  optimal (cp := cp) (stage1_problem square_ahead) ∧
  P_value (solve (Solver := cp) (stage1_problem square_ahead)) = Mat2 0.5 0 0 0.5 ∧
  ∀ o_i, o_i ∈ square_ahead →
    1.25 - 0 <= quad_form o_i (P_value (solve (Solver := cp) (stage1_problem square_ahead))).
Proof.
  assert (Hopt : optimal (cp := certifying_solver candidate) (stage1_problem square_ahead))
    by (vm_compute; reflexivity).
  split; [apply certifying_solver_sound|]. split; [exact Hopt|]. split; [reflexivity|].
  exact (proj1 (proj2
    (@stage1_ellipsoid_excludes_points (system (upper, lower))
       (certifying_solver candidate) numpy 0 square_ahead
       (certifying_solver_sound candidate) Hopt))).
Defined.

Lemma stage2_target_in_shrunk_ellipsoid_witness :
  let cp := certifying_solver candidate in
  solver_sound (H := cp) 0 ∧
  both_optimal (cp := cp) (np := numpy) 0 0 0 square_ahead ∧
  quad_form (x_target_value (solve (Solver := cp)
                               (stage2_problem (np := numpy) 0 0 0 square_ahead)))
            (P_value (solve (Solver := cp) (stage1_problem square_ahead)))
    <= 0.75 + 0.
Proof.
  assert (Hopt : both_optimal (cp := certifying_solver candidate) (np := numpy)
                   0 0 0 square_ahead) by (split; vm_compute; reflexivity).
  split; [apply certifying_solver_sound|]. split; [exact Hopt|].
  exact (proj2 (proj2
    (@stage2_target_in_shrunk_ellipsoid (system (upper, lower))
       (certifying_solver candidate) numpy
       0 0 0 0 [] square_ahead [] (certifying_solver_sound candidate) Hopt))).
Defined.

(** The double product on values Python shows: the float [0.1];
    [3 * (1 / 3) == 1.0]; [int(100 * 0.29) == 28]; [int(10 * -0.3) == -3];
    [float(2 ** 53 + 1) == 2.0 ** 53]. *)
Lemma double_product_examples :
  Py.float_round (1 # 10) == 3602879701896397 # 36028797018963968 ∧
  Py.float_mul (Py.float_of_int 3) one_third == 1 ∧
  Py.float_round (29 # 100) == 5224175567749775 # 18014398509481984 ∧
  split_pt 100 (5224175567749775 # 18014398509481984) = 28%Z ∧
  Py.float_round (-3 # 10) == -5404319552844595 # 18014398509481984 ∧
  split_pt 10 (-5404319552844595 # 18014398509481984) = (-3)%Z ∧
  Py.float_of_int (2 ^ 53 + 1) == inject_Z (2 ^ 53).
Proof. repeat split; vm_compute; reflexivity. Qed.



End Evaluations.

(** * Further properties of the code *)

(** ** The masks: errors, concatenation, margin *)

Section MaskBehaviour.
Import Tensor DataGeneration.

Lemma column_is_Some j x :
  is_Some (column j x) ↔ Forall (λ row : list Q, (j < length row)%nat) x.
Proof.
  unfold column. rewrite mapM_is_Some. apply Forall_proper; [|done].
  intros row. simpl. apply lookup_lt_is_Some.
Qed.

Lemma safe_mask_fn_is_Some x :
  is_Some (safe_mask_fn x) ↔ Forall (λ row : list Q, (2 <= length row)%nat) x.
Proof.
  split; [|apply mask_fns_total].
  unfold safe_mask_fn. intros [m Hm].
  destruct (column 0 x) as [x0|] eqn:E0; [|discriminate]. simpl in Hm.
  destruct (column 1 x) as [x1|] eqn:E1; [|discriminate].
  assert (H1 : is_Some (column 1 x)) by (rewrite E1; eauto).
  apply column_is_Some in H1. eapply Forall_impl; [exact H1|]. simpl. lia.
Qed.

Lemma unsafe_mask_fn_is_Some x :
  is_Some (unsafe_mask_fn x) ↔ Forall (λ row : list Q, (2 <= length row)%nat) x.
Proof.
  split; [|apply mask_fns_total].
  unfold unsafe_mask_fn. intros [m Hm].
  destruct (column 0 x) as [x0|] eqn:E0; [|discriminate]. simpl in Hm.
  destruct (column 1 x) as [x1|] eqn:E1; [|discriminate].
  assert (H1 : is_Some (column 1 x)) by (rewrite E1; eauto).
  apply column_is_Some in H1. eapply Forall_impl; [exact H1|]. simpl. lia.
Qed.

(** X1. On a batch with at least one state, [safe_mask_fn] and
    [unsafe_mask_fn] raise exactly when a state has fewer than two
    components (there is no column [x[:, 1]] to read); states of any greater
    length are accepted. *)
Theorem masks_raise_iff_short_state (x : list (list Q)) :
  x ≠ [] →
  (safe_mask_fn x = None ↔ Exists (λ row : list Q, (length row < 2)%nat) x) ∧
  (unsafe_mask_fn x = None ↔ Exists (λ row : list Q, (length row < 2)%nat) x).
Proof.
  intros _.
  assert (Hex : Exists (λ row : list Q, (length row < 2)%nat) x ↔
                ¬ Forall (λ row : list Q, (2 <= length row)%nat) x).
  { split.
    - intros Hex HF. apply Exists_exists in Hex as (row & Hin & Hlt).
      rewrite Forall_forall in HF. specialize (HF row Hin). lia.
    - intros HnF. apply not_Forall_Exists in HnF; [|intros row; apply _].
      eapply Exists_impl; [exact HnF|]. simpl. intros row. lia. }
  split.
  - rewrite Hex, <- safe_mask_fn_is_Some, <- eq_None_not_Some. done.
  - rewrite Hex, <- unsafe_mask_fn_is_Some, <- eq_None_not_Some. done.
Qed.

Lemma Forall_short_app (x y : list (list Q)) :
  Forall (λ row : list Q, (2 <= length row)%nat) (x ++ y) ↔
  Forall (λ row : list Q, (2 <= length row)%nat) x ∧
  Forall (λ row : list Q, (2 <= length row)%nat) y.
Proof. apply Forall_app. Qed.

Lemma lookup_app_Some_cases {A} (l1 l2 : list A) i a :
  (l1 ++ l2) !! i = Some a →
  ((i < length l1)%nat ∧ l1 !! i = Some a) ∨
  ((length l1 <= i)%nat ∧ l2 !! (i - length l1)%nat = Some a).
Proof.
  intros H. destruct (Nat.lt_ge_cases i (length l1)) as [Hlt|Hge].
  - left. split; [done|]. by rewrite lookup_app_l in H.
  - right. split; [done|]. by rewrite lookup_app_r in H.
Qed.

Lemma safe_mask_fn_app x y s t :
  safe_mask_fn x = Some s → safe_mask_fn y = Some t →
  safe_mask_fn (x ++ y) = Some (s ++ t).
Proof.
  intros Hs Ht.
  destruct (proj2 (safe_mask_fn_is_Some (x ++ y))) as [m Hm].
  { apply Forall_short_app. split; apply safe_mask_fn_is_Some; eauto. }
  rewrite Hm. f_equal.
  pose proof (safe_mask_fn_length _ _ Hs) as Hls.
  pose proof (safe_mask_fn_length _ _ Ht) as Hlt.
  pose proof (safe_mask_fn_length _ _ Hm) as Hlm. rewrite length_app in Hlm.
  apply (list_eq_same_length _ _ (length x + length y)%nat);
    [rewrite length_app; lia|done|].
  intros i a b Hi Ha Hb.
  destruct (lookup_lt_is_Some_2 (x ++ y) i) as [row Hrow]; [rewrite length_app; lia|].
  destruct (safe_mask_fn_lookup _ _ _ _ Hm Hrow) as (px & pz & Hpx & Hpz & Hmi).
  apply lookup_app_Some_cases in Hrow as [[Hlt' Hrow]|[Hge Hrow]].
  - destruct (safe_mask_fn_lookup _ _ _ _ Hs Hrow) as (px' & pz' & Hpx' & Hpz' & Hsi).
    rewrite lookup_app_l in Hb by lia. congruence.
  - destruct (safe_mask_fn_lookup _ _ _ _ Ht Hrow) as (px' & pz' & Hpx' & Hpz' & Hti).
    rewrite lookup_app_r in Hb by lia. rewrite Hls in Hb. congruence.
Qed.

Lemma unsafe_mask_fn_app x y s t :
  unsafe_mask_fn x = Some s → unsafe_mask_fn y = Some t →
  unsafe_mask_fn (x ++ y) = Some (s ++ t).
Proof.
  intros Hs Ht.
  destruct (proj2 (unsafe_mask_fn_is_Some (x ++ y))) as [m Hm].
  { apply Forall_short_app. split; apply unsafe_mask_fn_is_Some; eauto. }
  rewrite Hm. f_equal.
  pose proof (unsafe_mask_fn_length _ _ Hs) as Hls.
  pose proof (unsafe_mask_fn_length _ _ Ht) as Hlt.
  pose proof (unsafe_mask_fn_length _ _ Hm) as Hlm. rewrite length_app in Hlm.
  apply (list_eq_same_length _ _ (length x + length y)%nat);
    [rewrite length_app; lia|done|].
  intros i a b Hi Ha Hb.
  destruct (lookup_lt_is_Some_2 (x ++ y) i) as [row Hrow]; [rewrite length_app; lia|].
  destruct (unsafe_mask_fn_lookup _ _ _ _ Hm Hrow) as (px & pz & Hpx & Hpz & Hmi).
  apply lookup_app_Some_cases in Hrow as [[Hlt' Hrow]|[Hge Hrow]].
  - destruct (unsafe_mask_fn_lookup _ _ _ _ Hs Hrow) as (px' & pz' & Hpx' & Hpz' & Hsi).
    rewrite lookup_app_l in Hb by lia. congruence.
  - destruct (unsafe_mask_fn_lookup _ _ _ _ Ht Hrow) as (px' & pz' & Hpx' & Hpz' & Hti).
    rewrite lookup_app_r in Hb by lia. rewrite Hls in Hb. congruence.
Qed.

(** X2. The masks are computed state by state: the mask of two stacked
    batches (not both empty) is the concatenation of their masks, and
    stacking raises exactly when one of the two batches does. *)
Theorem masks_of_stacked_batches (x y : list (list Q)) :
  x ++ y ≠ [] →
  safe_mask_fn (x ++ y) =
    (s ← safe_mask_fn x; t ← safe_mask_fn y; Some (s ++ t)) ∧
  unsafe_mask_fn (x ++ y) =
    (s ← unsafe_mask_fn x; t ← unsafe_mask_fn y; Some (s ++ t)).
Proof.
  intros _. split.
  - destruct (safe_mask_fn x) as [s|] eqn:Hs; simpl.
    + destruct (safe_mask_fn y) as [t|] eqn:Ht; simpl.
      * by apply safe_mask_fn_app.
      * apply eq_None_not_Some. intros H.
        apply safe_mask_fn_is_Some, Forall_short_app in H as [_ H].
        apply safe_mask_fn_is_Some in H. rewrite Ht in H. by destruct H.
    + apply eq_None_not_Some. intros H.
      apply safe_mask_fn_is_Some, Forall_short_app in H as [H _].
      apply safe_mask_fn_is_Some in H. rewrite Hs in H. by destruct H.
  - destruct (unsafe_mask_fn x) as [s|] eqn:Hs; simpl.
    + destruct (unsafe_mask_fn y) as [t|] eqn:Ht; simpl.
      * by apply unsafe_mask_fn_app.
      * apply eq_None_not_Some. intros H.
        apply unsafe_mask_fn_is_Some, Forall_short_app in H as [_ H].
        apply unsafe_mask_fn_is_Some in H. rewrite Ht in H. by destruct H.
    + apply eq_None_not_Some. intros H.
      apply unsafe_mask_fn_is_Some, Forall_short_app in H as [H _].
      apply unsafe_mask_fn_is_Some in H. rewrite Hs in H. by destruct H.
Qed.

Ltac reflect_in H :=
  repeat first [ rewrite andb_true_iff in H
               | rewrite orb_true_iff in H
               | rewrite Qle_bool_iff in H ].

Lemma small_square (b : Q) : -0.1 < b → b < 0.1 → b * b < 0.01.
Proof.
  intros Hl Hu.
  assert (0 < (0.1 - b) * (0.1 + b)) by (apply Qmult_lt_0_compat; qlra).
  qlra.
Qed.

(** [(a + b)^2 >= 19/20 a^2 - 19 b^2], from [(a + 20 b)^2 >= 0]. *)
Lemma shifted_square (a b : Q) :
  (19 # 20) * (a * a) - 19 * (b * b) <= (a + b) * (a + b).
Proof. pose proof (square_nonneg (a + 20 * b)). qlra. Qed.

(** X3. The unsafe region keeps a margin to the safe region: a state flagged
    unsafe stays not safe when its position is moved by at most 0.09 in each
    coordinate (the thresholds of the two regions are 0.1 or more apart, so
    the statement does not hinge on how a threshold is rounded). *)
Theorem unsafe_states_keep_margin (x x' : list (list Q)) (us s' : list bool)
    (i j : nat) (px pz dx dz : Q) (rest : list Q) :
  unsafe_mask_fn x = Some us → safe_mask_fn x' = Some s' →
  x !! i = Some (px :: pz :: rest) →
  x' !! j = Some ((px + dx) :: (pz + dz) :: rest) →
  -0.09 <= dx → dx <= 0.09 → -0.09 <= dz → dz <= 0.09 →
  us !! i = Some true →
  s' !! j = Some false.
Proof.
  intros Hus Hs Hx Hx' Hdx1 Hdx2 Hdz1 Hdz2 Hui.
  destruct (unsafe_mask_fn_lookup _ _ _ _ Hus Hx) as (a & b & Ha & Hb & Hup).
  destruct (safe_mask_fn_lookup _ _ _ _ Hs Hx') as (a' & b' & Ha' & Hb' & Hsp).
  simpl in Ha, Hb, Ha', Hb'.
  injection Ha as <-. injection Hb as <-. injection Ha' as <-. injection Hb' as <-.
  rewrite Hsp. f_equal. rewrite Hui in Hup. injection Hup as Hup. symmetry in Hup.
  apply not_true_is_false. intros Hsafe.
  unfold safe_point, unsafe_point, safe_floor, safe_obs1, safe_obs2, safe_norm,
    unsafe_floor, unsafe_obs1, unsafe_obs2, unsafe_norm, norm_le_row, norm_ge_row
    in Hsafe, Hup.
  simpl sum_squares in Hsafe, Hup.
  reflect_in Hsafe. reflect_in Hup.
  destruct Hsafe as [[[[_ Hfloor] Hobs1] Hobs2] Hnorm].
  destruct Hup as [[[[Hu|Hu]|Hu]|Hu]|Hu]; [discriminate| | | |].
  - qlra.
  - destruct Hu as [[? ?] [? ?]]. destruct Hobs1 as [[?|?]|[?|?]]; qlra.
  - destruct Hu as [[? ?] [? ?]]. destruct Hobs2 as [[?|?]|[?|?]]; qlra.
  - pose proof (small_square dx ltac:(qlra) ltac:(qlra)).
    pose proof (small_square dz ltac:(qlra) ltac:(qlra)).
    pose proof (shifted_square px dx). pose proof (shifted_square pz dz).
    pose proof (sum_squares_nonneg rest).
    qlra.
Qed.

Lemma square_le_sum_squares (row : list Q) v : v ∈ row → v * v <= sum_squares row.
Proof.
  induction row as [|a row IH]; intros Hin; [by apply elem_of_nil in Hin|].
  simpl. apply elem_of_cons in Hin as [->|Hin].
  - pose proof (sum_squares_nonneg row). qlra.
  - specialize (IH Hin). pose proof (square_nonneg a). qlra.
Qed.

Lemma square_bound (v c : Q) : 0 <= c → v * v <= c * c → - c <= v <= c.
Proof.
  intros Hc Hsq. split.
  - destruct (Qlt_le_dec v (- c)) as [Hlt|]; [|done]. exfalso.
    assert (0 < (- c - v) * (c - v)) by (apply Qmult_lt_0_compat; qlra). qlra.
  - destruct (Qlt_le_dec c v) as [Hlt|]; [|done]. exfalso.
    assert (0 < (v - c) * (v + c)) by (apply Qmult_lt_0_compat; qlra). qlra.
Qed.

Lemma square_large (v c : Q) : 0 <= c → v <= - c ∨ c <= v → c * c <= v * v.
Proof.
  intros Hc [Hv|Hv].
  - assert (0 <= (- v - c) * (- v + c)) by (apply Qmult_le_0_compat; qlra). qlra.
  - assert (0 <= (v - c) * (v + c)) by (apply Qmult_le_0_compat; qlra). qlra.
Qed.

(** X17. One large component decides: a state with a component of absolute
    value 5 or more, whichever component it is, is flagged unsafe and not
    flagged safe; so every component of a state flagged safe lies strictly
    between -5 and 5. *)
Theorem large_component_is_unsafe (x : list (list Q)) (s us : list bool)
    (i : nat) (row : list Q) :
  safe_mask_fn x = Some s → unsafe_mask_fn x = Some us → x !! i = Some row →
  (Exists (λ v, v <= -5 ∨ 5 <= v) row →
     us !! i = Some true ∧ s !! i = Some false) ∧
  (s !! i = Some true → Forall (λ v, -5 < v ∧ v < 5) row).
Proof.
  intros Hs Hus Hx.
  destruct (safe_mask_fn_lookup _ _ _ _ Hs Hx) as (px & pz & Hpx & Hpz & Hsp).
  destruct (unsafe_mask_fn_lookup _ _ _ _ Hus Hx) as (px' & pz' & _ & _ & Hup).
  assert (Hsafe : safe_point px pz row = true → Forall (λ v, -5 < v ∧ v < 5) row).
  { intros Hsafe.
    unfold safe_point, safe_floor, safe_norm, norm_le_row in Hsafe. reflect_in Hsafe.
    destruct Hsafe as [_ Hnorm].
    apply Forall_forall. intros v Hv.
    pose proof (square_le_sum_squares row v Hv).
    destruct (square_bound v 4.5) as [Hlo Hhi]; [discriminate|qlra|].
    split; qlra. }
  split.
  - intros Hex. rewrite Hup, Hsp. split; f_equal.
    + apply Exists_exists in Hex as (v & Hv & Hbig).
      pose proof (square_le_sum_squares row v Hv).
      pose proof (square_large v 5 ltac:(discriminate) Hbig).
      unfold unsafe_point, unsafe_norm, norm_ge_row.
      apply orb_true_iff. right. apply Qle_bool_iff. qlra.
    + apply not_true_is_false. intros Htrue. specialize (Hsafe Htrue).
      apply Exists_exists in Hex as (v & Hv & Hbig).
      rewrite Forall_forall in Hsafe. specialize (Hsafe v Hv).
      destruct Hbig; qlra.
  - intros Hsi. rewrite Hsi in Hsp. injection Hsp as Hsp. by apply Hsafe.
Qed.

End MaskBehaviour.

(** ** The data module: construction, sampling, splitting *)

Section DataModuleBehaviour.
Import Tensor DataGeneration DataModule.

Context {arith : TorchArith}.
Variable N_DIMS : nat.
Variable rand : nat → nat → nat → Q.

(** What [__init__] stores. *)
Lemma init_fields N_samples0 domains0 split0 dm0 :
  init N_DIMS N_samples0 domains0 split0 = Some dm0 →
  N_samples dm0 = N_samples0 ∧ split dm0 = split0 ∧ batch_size dm0 = 64%nat ∧
  DataModule.n_dims dm0 = N_DIMS ∧
  domains dm0 = default (default_domains) domains0 ∧
  N dm0 = (length (domains dm0) * N_samples0)%nat ∧
  dataset dm0 = None ∧ train_data dm0 = None ∧ validation_data dm0 = None.
Proof.
  unfold init. intros Hinit.
  destruct domains0 as [ds|]; simpl in Hinit.
  - destruct (forallb _ ds); [|discriminate]. simpl in Hinit.
    injection Hinit as <-. by repeat split.
  - injection Hinit as <-. by repeat split.
Qed.

Lemma uniform_lookup k rows cols r i :
  (r < rows)%nat → (i < cols)%nat →
  ∃ row, uniform_ rand k rows cols !! r = Some row ∧ row !! i = Some (rand k r i).
Proof.
  intros Hr Hi. unfold uniform_. eexists. split.
  - rewrite list_lookup_fmap, lookup_seq_lt by done. reflexivity.
  - simpl. rewrite list_lookup_fmap, lookup_seq_lt by done. reflexivity.
Qed.

Lemma scale_column_lookup i lo hi x r row :
  x !! r = Some row →
  scale_column i lo hi x !! r = Some (alter (λ v, rescale v lo hi) i row).
Proof. intros H. unfold scale_column. by rewrite list_lookup_fmap, H. Qed.

Lemma scale_loop_failed (domain : list (Q * Q)) l :
  foldl (λ acc i, x ← acc;
                  '(min_val, max_val) ← domain !! i;
                  Some (scale_column i min_val max_val x))
        None l = None.
Proof. induction l as [|i l IH]; simpl; [done|exact IH]. Qed.

(** The scaling loop over the columns [s .. s + n - 1]: it needs an interval
    for each of them, keeps the number of rows, rescales those columns of
    every row and leaves the other columns alone. *)
Lemma scale_loop_values (domain : list (Q * Q)) n : ∀ s x x',
  foldl (λ acc i, x ← acc;
                  '(min_val, max_val) ← domain !! i;
                  Some (scale_column i min_val max_val x))
        (Some x) (seq s n) = Some x' →
  (s + n <= length domain ∨ n = 0)%nat ∧ length x' = length x ∧
  ∀ r row, x !! r = Some row →
    ∃ row', x' !! r = Some row' ∧
      ∀ i v, row !! i = Some v →
        ((s <= i < s + n)%nat → ∀ lo hi, domain !! i = Some (lo, hi) →
                                 row' !! i = Some (rescale v lo hi)) ∧
        (¬ (s <= i < s + n)%nat → row' !! i = Some v).
Proof.
  induction n as [|n IH]; intros s x x' Hrun; simpl in Hrun.
  - injection Hrun as <-. split; [by right|]. split; [done|].
    intros r row Hrow. exists row. split; [done|]. intros i v Hv. split; [lia|done].
  - destruct (domain !! s) as [[lo0 hi0]|] eqn:Hd; simpl in Hrun;
      [|by rewrite scale_loop_failed in Hrun].
    apply IH in Hrun as (Hlen & Hrows & Hvals).
    apply lookup_lt_Some in Hd as Hs.
    split; [left; lia|]. split.
    { rewrite Hrows. unfold scale_column. by rewrite length_fmap. }
    intros r row Hrow.
    destruct (Hvals r _ (scale_column_lookup s lo0 hi0 x r row Hrow))
      as (row' & Hrow' & Hval).
    exists row'. split; [done|]. intros i v Hv.
    destruct (decide (i = s)) as [->|Hne].
    + destruct (Hval s (rescale v lo0 hi0)) as [_ Hkeep].
      { rewrite list_lookup_alter. rewrite decide_True by done. by rewrite Hv. }
      split; [|lia]. intros _ lo hi Hlh.
      assert (lo = lo0 ∧ hi = hi0) as [-> ->] by (split; congruence).
      apply Hkeep. lia.
    + destruct (Hval i v) as [Hin Hout].
      { by rewrite list_lookup_alter_ne. }
      split.
      * intros Hrange. apply Hin. lia.
      * intros Hrange. apply Hout. lia.
Qed.

Lemma sample_domains_blocks Ns n ds : ∀ k xs,
  sample_domains rand Ns n k ds = Some xs →
  length xs = length ds ∧
  ∀ j domain, ds !! j = Some domain →
    ∃ block, xs !! j = Some block ∧
             scale_sample n domain (uniform_ rand (k + j) Ns n) = Some block.
Proof.
  induction ds as [|domain rest IH]; intros k xs Hrun; simpl in Hrun.
  - injection Hrun as <-. split; [done|]. intros j d Hj. by destruct j.
  - destruct (scale_sample n domain (uniform_ rand k Ns n)) as [block|] eqn:Hb;
      [|discriminate]. simpl in Hrun.
    destruct (sample_domains rand Ns n (S k) rest) as [blocks|] eqn:Hbs;
      [|discriminate]. simpl in Hrun. injection Hrun as <-.
    destruct (IH _ _ Hbs) as [Hlen Hblocks].
    split; [simpl; lia|].
    intros [|j] d Hj; simpl in Hj.
    + injection Hj as <-. exists block. rewrite Nat.add_0_r. by split.
    + destruct (Hblocks j d Hj) as (b & Hbj & Hsc). exists b. split; [done|].
      by replace (k + S j)%nat with (S k + j)%nat by lia.
Qed.

Lemma concat_block_lookup {A} (Ns : nat) (xs : list (list A)) : ∀ k block r,
  Forall (λ b : list A, length b = Ns) xs →
  xs !! k = Some block → (r < Ns)%nat →
  concat xs !! (k * Ns + r)%nat = block !! r.
Proof.
  induction xs as [|b xs IH]; intros k block r HF Hk Hr; [by destruct k|].
  apply Forall_cons in HF as [Hb HF]. simpl. destruct k as [|k]; simpl in *.
  - injection Hk as <-. rewrite lookup_app_l by lia. done.
  - rewrite lookup_app_r by lia. rewrite Hb.
    replace (Ns + k * Ns + r - Ns)%nat with (k * Ns + r)%nat by lia.
    by apply IH.
Qed.

(** What [prepare_data] builds, read back from its result. *)
Lemma prepare_data_inv dm0 dm1 :
  prepare_data rand dm0 = Some dm1 →
  ∃ xs sm um,
    sample_domains rand (N_samples dm0) (DataModule.n_dims dm0) 0 (domains dm0) = Some xs ∧
    xs ≠ [] ∧
    safe_mask_fn (concat xs) = Some sm ∧ unsafe_mask_fn (concat xs) = Some um ∧
    dataset dm1 = Some (mkTensorDataset (concat xs) sm um) ∧
    N_samples dm1 = N_samples dm0 ∧ split dm1 = split dm0 ∧
    DataModule.n_dims dm1 = DataModule.n_dims dm0 ∧
    domains dm1 = domains dm0 ∧ N dm1 = N dm0 ∧
    train_data dm1 = train_data dm0 ∧ validation_data dm1 = validation_data dm0.
Proof.
  unfold prepare_data. intros Hrun.
  destruct (sample_domains _ _ _ _ _) as [xs|]; [|discriminate]. simpl in Hrun.
  destruct xs as [|x0 xs]; [discriminate|]. simpl in Hrun.
  destruct (safe_mask_fn _) as [sm|] eqn:Hsm; [|discriminate]. simpl in Hrun.
  destruct (unsafe_mask_fn _) as [um|] eqn:Hum; [|discriminate]. simpl in Hrun.
  unfold TensorDataset_new in Hrun.
  destruct (_ && _); [|discriminate]. simpl in Hrun. injection Hrun as <-.
  exists (x0 :: xs), sm, um. simpl. by repeat split.
Qed.

Lemma uniform_length k rows cols : length (uniform_ rand k rows cols) = rows.
Proof. unfold uniform_. by rewrite length_fmap, length_seq. Qed.

(** X4. [__init__] rejects a domain list exactly when one of its domains
    does not have one interval per state dimension.  Whenever it returns,
    the domains are the given ones, or the two default domains when none are
    given; [N] is the number of domains times [N_samples]; the batch size is
    64; and there is no dataset and no partition yet.  Without a domain list
    it always returns, as the six intervals of a default domain are not
    checked against [N_DIMS]: for a model of more than six dimensions
    [prepare_data] then raises, [domain[6]] being out of range. *)
Theorem init_checks_domain_dimensions (N_samples0 : nat) (split0 : Q) :
  (∀ ds, init N_DIMS N_samples0 (Some ds) split0 = None ↔
         Exists (λ domain : list (Q * Q), length domain ≠ N_DIMS) ds) ∧
  (∀ domains0 dm0, init N_DIMS N_samples0 domains0 split0 = Some dm0 →
         domains dm0 = default default_domains domains0 ∧
         N dm0 = (length (domains dm0) * N_samples0)%nat ∧
         N_samples dm0 = N_samples0 ∧ split dm0 = split0 ∧
         batch_size dm0 = 64%nat ∧ DataModule.n_dims dm0 = N_DIMS ∧
         dataset dm0 = None ∧ train_data dm0 = None ∧ validation_data dm0 = None) ∧
  (∃ dm0, init N_DIMS N_samples0 None split0 = Some dm0 ∧
          domains dm0 = default_domains ∧ N dm0 = (2 * N_samples0)%nat ∧
          Forall (λ domain : list (Q * Q), length domain = 6%nat) (domains dm0) ∧
          ((6 < N_DIMS)%nat → prepare_data rand dm0 = None)).
Proof.
  split; [|split].
  - intros ds. unfold init.
    destruct (forallb (λ domain : list (Q * Q), (length domain =? N_DIMS)%nat) ds)
      eqn:Hall; simpl.
    + split; [discriminate|]. intros Hex. exfalso.
      rewrite forallb_forall in Hall.
      apply Exists_exists in Hex as (domain & Hin & Hne).
      apply list_elem_of_In, Hall, Nat.eqb_eq in Hin. contradiction.
    + split; [intros _|done].
      apply Exists_exists.
      assert (Hn : ¬ Forall (λ domain : list (Q * Q), length domain = N_DIMS) ds).
      { intros HF. rewrite <- not_true_iff_false in Hall. apply Hall.
        apply forallb_forall. intros domain Hin. apply Nat.eqb_eq.
        rewrite Forall_forall in HF. apply HF. by apply list_elem_of_In. }
      apply not_Forall_Exists in Hn; [|intros d; apply _].
      apply Exists_exists in Hn as (domain & Hin & Hne). eauto.
  - intros domains0 dm0 Hinit.
    apply init_fields in Hinit as (? & ? & ? & ? & ? & ? & ? & ? & ?).
    by repeat split.
  - eexists. split; [reflexivity|]. split; [done|]. split; [done|].
    split; [by repeat constructor|].
    intros Hbig. apply eq_None_not_Some. intros [dm1 Hprep].
    apply prepare_data_inv in Hprep as (xs & _ & _ & Hxs & _).
    destruct (sample_domains_blocks _ _ _ _ _ Hxs) as [_ Hblocks].
    destruct (Hblocks 0%nat _ eq_refl) as (block & _ & Hsc).
    unfold scale_sample in Hsc. apply scale_loop_values in Hsc as (Hlen & _).
    simpl in Hlen. lia.
Qed.

(** X5. The dataset is stacked by domain, unshuffled: sample [r] of domain
    [k] is row [k * N_samples + r], and its component [i] is what
    [x_sample[:, i] * (max_val - min_val) + min_val] stores for the draw
    [(k, r, i)] and the interval [i] of domain [k]; no other draw and no
    other interval enter it. *)
Theorem samples_are_stacked_by_domain (dm0 dm1 : Quad2DObstaclesDataModule)
    (d : TensorDataset) :
  prepare_data rand dm0 = Some dm1 → dataset dm1 = Some d →
  ∀ k r i domain lo hi,
    domains dm0 !! k = Some domain →
    (r < N_samples dm0)%nat → (i < DataModule.n_dims dm0)%nat →
    domain !! i = Some (lo, hi) →
    ∃ row, ds_x d !! (k * N_samples dm0 + r)%nat = Some row ∧
           row !! i = Some (rescale (rand k r i) lo hi).
Proof.
  intros Hprep Hd k r i domain lo hi Hk Hr Hi Hlh.
  apply prepare_data_inv in Hprep
    as (xs & sm & um & Hxs & _ & _ & _ & Hds & _).
  rewrite Hds in Hd. injection Hd as <-. simpl.
  destruct (sample_domains_blocks _ _ _ _ _ Hxs) as [Hlen Hblocks].
  assert (Hshape : Forall (λ b : list (list Q), length b = N_samples dm0) xs).
  { apply Forall_lookup. intros j b Hj.
    destruct (lookup_lt_is_Some_2 (domains dm0) j) as [dj Hdj].
    { rewrite <- Hlen. by eapply lookup_lt_Some. }
    destruct (Hblocks j dj Hdj) as (b' & Hb' & Hsc).
    assert (b' = b) by congruence. subst b'.
    unfold scale_sample in Hsc. apply scale_loop_values in Hsc as (_ & Hl & _).
    by rewrite Hl, uniform_length. }
  destruct (Hblocks k domain Hk) as (block & Hblock & Hsc). simpl in Hsc.
  unfold scale_sample in Hsc. apply scale_loop_values in Hsc as (_ & _ & Hvals).
  destruct (uniform_lookup k (N_samples dm0) (DataModule.n_dims dm0) r i Hr Hi)
    as (row0 & Hrow0 & Hv0).
  destruct (Hvals r row0 Hrow0) as (row & Hrow & Hval).
  exists row. split.
  - rewrite (concat_block_lookup (N_samples dm0) xs k block r Hshape Hblock Hr).
    exact Hrow.
  - destruct (Hval i _ Hv0) as [Hin _]. apply Hin; [lia|done].
Qed.

Lemma concat_blocks_length {A} (Ns : nat) (xs : list (list A)) :
  Forall (λ b : list A, length b = Ns) xs →
  length (concat xs) = (length xs * Ns)%nat.
Proof.
  induction 1 as [|b xs Hb _ IH]; simpl; [done|]. rewrite length_app. lia.
Qed.

(** The dataset holds [len(domains) * N_samples] samples and one flag of
    each kind per sample. *)
Lemma prepare_data_lengths dm0 dm1 d :
  prepare_data rand dm0 = Some dm1 → dataset dm1 = Some d →
  length (ds_x d) = (length (domains dm0) * N_samples dm0)%nat ∧
  length (ds_safe d) = length (ds_x d) ∧ length (ds_unsafe d) = length (ds_x d) ∧
  safe_mask_fn (ds_x d) = Some (ds_safe d) ∧
  unsafe_mask_fn (ds_x d) = Some (ds_unsafe d).
Proof.
  intros Hprep Hd.
  apply prepare_data_inv in Hprep
    as (xs & sm & um & Hxs & _ & Hsm & Hum & Hds & _).
  rewrite Hds in Hd. injection Hd as <-. simpl.
  destruct (sample_domains_blocks _ _ _ _ _ Hxs) as [Hlen Hblocks].
  assert (Hshape : Forall (λ b : list (list Q), length b = N_samples dm0) xs).
  { apply Forall_lookup. intros j b Hj.
    destruct (lookup_lt_is_Some_2 (domains dm0) j) as [dj Hdj].
    { rewrite <- Hlen. by eapply lookup_lt_Some. }
    destruct (Hblocks j dj Hdj) as (b' & Hb' & Hsc).
    assert (b' = b) by congruence. subst b'.
    unfold scale_sample in Hsc. apply scale_loop_values in Hsc as (_ & Hl & _).
    by rewrite Hl, uniform_length. }
  rewrite (concat_blocks_length _ _ Hshape), Hlen.
  split; [done|]. rewrite <- Hlen, <- (concat_blocks_length _ _ Hshape).
  split; [by apply safe_mask_fn_length|]. split; [by apply unsafe_mask_fn_length|].
  by split.
Qed.

(** What [setup] stores, read back from its result: both partitions are
    cut at the same position [j] when the three tensors are equally long. *)
Lemma setup_inv dm1 dm2 :
  setup dm1 = Some dm2 →
  ∃ d, dataset dm1 = Some d ∧ dataset dm2 = Some d ∧
       N dm2 = N dm1 ∧ split dm2 = split dm1 ∧
       let k := split_pt (N dm1) (split dm1) in
       train_data dm2 = Some (getitem_from d k) ∧
       validation_data dm2 = Some (getitem_to d k).
Proof.
  unfold setup. intros Hrun.
  destruct (dataset dm1) as [d|] eqn:Hd; [|discriminate]. simpl in Hrun.
  injection Hrun as <-. exists d. simpl. by repeat split.
Qed.

Lemma getitem_cut d split_pt :
  length (ds_safe d) = length (ds_x d) → length (ds_unsafe d) = length (ds_x d) →
  let j := Py.slice_index (length (ds_x d)) split_pt in
  getitem_to d split_pt = (take j (ds_x d), take j (ds_safe d), take j (ds_unsafe d)) ∧
  getitem_from d split_pt = (drop j (ds_x d), drop j (ds_safe d), drop j (ds_unsafe d)).
Proof.
  intros Hs Hu j. unfold getitem_to, getitem_from, Py.slice_to, Py.slice_from.
  rewrite Hs, Hu. by split.
Qed.


(** A flag depends on the state of its row only. *)
Lemma safe_mask_fn_reindex x y s t i j :
  safe_mask_fn x = Some s → safe_mask_fn y = Some t →
  y !! i = x !! j → t !! i = s !! j.
Proof.
  intros Hs Ht Hij.
  pose proof (safe_mask_fn_length _ _ Hs). pose proof (safe_mask_fn_length _ _ Ht).
  destruct (x !! j) as [row|] eqn:Hx.
  - destruct (safe_mask_fn_lookup _ _ _ _ Hs Hx) as (px & pz & ? & ? & ->).
    destruct (safe_mask_fn_lookup _ _ _ _ Ht Hij) as (px' & pz' & ? & ? & ->).
    congruence.
  - apply lookup_ge_None in Hx, Hij. rewrite !lookup_ge_None_2; [done| |]; lia.
Qed.

Lemma unsafe_mask_fn_reindex x y s t i j :
  unsafe_mask_fn x = Some s → unsafe_mask_fn y = Some t →
  y !! i = x !! j → t !! i = s !! j.
Proof.
  intros Hs Ht Hij.
  pose proof (unsafe_mask_fn_length _ _ Hs). pose proof (unsafe_mask_fn_length _ _ Ht).
  destruct (x !! j) as [row|] eqn:Hx.
  - destruct (unsafe_mask_fn_lookup _ _ _ _ Hs Hx) as (px & pz & ? & ? & ->).
    destruct (unsafe_mask_fn_lookup _ _ _ _ Ht Hij) as (px' & pz' & ? & ? & ->).
    congruence.
  - apply lookup_ge_None in Hx, Hij. rewrite !lookup_ge_None_2; [done| |]; lia.
Qed.

Lemma lookup_take_drop {A} (l : list A) k i :
  (i < k)%nat → take k l !! i = l !! i.
Proof. intros H. rewrite lookup_take. by rewrite decide_True. Qed.

Lemma safe_mask_fn_slices x s k :
  safe_mask_fn x = Some s →
  safe_mask_fn (take k x) = Some (take k s) ∧
  safe_mask_fn (drop k x) = Some (drop k s).
Proof.
  intros Hs.
  assert (HF : Forall (λ row : list Q, (2 <= length row)%nat) x)
    by (apply safe_mask_fn_is_Some; eauto).
  destruct (proj2 (safe_mask_fn_is_Some (take k x))) as [t Ht]; [by apply Forall_take|].
  destruct (proj2 (safe_mask_fn_is_Some (drop k x))) as [r Hr]; [by apply Forall_drop|].
  rewrite Ht, Hr. split; f_equal; apply list_eq; intros i.
  - destruct (decide (i < k)%nat).
    + rewrite lookup_take_drop by done.
      apply (safe_mask_fn_reindex x (take k x) s t i i Hs Ht).
      by apply lookup_take_drop.
    + rewrite lookup_take, decide_False by done.
      apply lookup_ge_None_2. rewrite (safe_mask_fn_length _ _ Ht), length_take. lia.
  - rewrite lookup_drop.
    apply (safe_mask_fn_reindex x (drop k x) s r i (k + i) Hs Hr), lookup_drop.
Qed.

Lemma unsafe_mask_fn_slices x s k :
  unsafe_mask_fn x = Some s →
  unsafe_mask_fn (take k x) = Some (take k s) ∧
  unsafe_mask_fn (drop k x) = Some (drop k s).
Proof.
  intros Hs.
  assert (HF : Forall (λ row : list Q, (2 <= length row)%nat) x)
    by (apply unsafe_mask_fn_is_Some; eauto).
  destruct (proj2 (unsafe_mask_fn_is_Some (take k x))) as [t Ht]; [by apply Forall_take|].
  destruct (proj2 (unsafe_mask_fn_is_Some (drop k x))) as [r Hr]; [by apply Forall_drop|].
  rewrite Ht, Hr. split; f_equal; apply list_eq; intros i.
  - destruct (decide (i < k)%nat).
    + rewrite lookup_take_drop by done.
      apply (unsafe_mask_fn_reindex x (take k x) s t i i Hs Ht).
      by apply lookup_take_drop.
    + rewrite lookup_take, decide_False by done.
      apply lookup_ge_None_2. rewrite (unsafe_mask_fn_length _ _ Ht), length_take. lia.
  - rewrite lookup_drop.
    apply (unsafe_mask_fn_reindex x (drop k x) s r i (k + i) Hs Hr), lookup_drop.
Qed.

(** X7. The flags stay with their samples: in the dataset made by
    [prepare_data] and in both partitions made by [setup], the safe and
    unsafe flags are the masks of the partition's own points, whatever the
    split fraction. *)
Theorem labels_follow_their_samples (dm0 dm1 dm2 : Quad2DObstaclesDataModule) :
  prepare_data rand dm0 = Some dm1 → setup dm1 = Some dm2 →
  ∃ d tr va, dataset dm1 = Some d ∧
    train_data dm2 = Some tr ∧ validation_data dm2 = Some va ∧
    safe_mask_fn (ds_x d) = Some (ds_safe d) ∧
    unsafe_mask_fn (ds_x d) = Some (ds_unsafe d) ∧
    safe_mask_fn tr.1.1 = Some tr.1.2 ∧ unsafe_mask_fn tr.1.1 = Some tr.2 ∧
    safe_mask_fn va.1.1 = Some va.1.2 ∧ unsafe_mask_fn va.1.1 = Some va.2.
Proof.
  intros Hprep Hsetup.
  apply setup_inv in Hsetup as (d & Hd & _ & _ & _ & Htr & Hva).
  destruct (prepare_data_lengths dm0 dm1 d Hprep Hd) as (_ & Hls & Hlu & Hsm & Hum).
  destruct (getitem_cut d (split_pt (N dm1) (split dm1)) Hls Hlu)
    as [Hto Hfrom].
  rewrite Hto in Hva. rewrite Hfrom in Htr.
  eexists d, _, _. split; [done|]. split; [exact Htr|]. split; [exact Hva|].
  split; [done|]. split; [done|]. simpl.
  destruct (safe_mask_fn_slices _ _ (Py.slice_index (length (ds_x d))
              (split_pt (N dm1) (split dm1))) Hsm) as [? ?].
  destruct (unsafe_mask_fn_slices _ _ (Py.slice_index (length (ds_x d))
              (split_pt (N dm1) (split dm1))) Hum) as [? ?].
  by repeat split.
Qed.

(** *** Where the cut falls *)

Lemma inject_nat_nonneg (n : nat) : 0 <= inject_Z (Z.of_nat n).
Proof. change 0 with (inject_Z 0). rewrite <- Zle_Qle. lia. Qed.

(** The pipeline [__init__], [prepare_data], [setup]: the dataset has [N]
    samples and both partitions are cut at the position of [int(N * split)]
    in a sequence of [N] elements. *)
Lemma pipeline_cut N_samples0 domains0 split0 dm0 dm1 dm2 :
  init N_DIMS N_samples0 domains0 split0 = Some dm0 →
  prepare_data rand dm0 = Some dm1 → setup dm1 = Some dm2 →
  let total := (length (domains dm0) * N_samples0)%nat in
  let j := Py.slice_index total (split_pt total split0) in
  ∃ d, dataset dm1 = Some d ∧ length (ds_x d) = total ∧
       length (ds_safe d) = total ∧ length (ds_unsafe d) = total ∧
       validation_data dm2 =
         Some (take j (ds_x d), take j (ds_safe d), take j (ds_unsafe d)) ∧
       train_data dm2 =
         Some (drop j (ds_x d), drop j (ds_safe d), drop j (ds_unsafe d)).
Proof.
  intros Hinit Hprep Hsetup total j.
  apply init_fields in Hinit as (HNs & Hsp & _ & _ & _ & HN & _).
  apply setup_inv in Hsetup as (d & Hd & _ & _ & _ & Htr & Hva).
  destruct (prepare_data_lengths dm0 dm1 d Hprep Hd) as (Hlx & Hls & Hlu & _).
  apply prepare_data_inv in Hprep
    as (xs & sm & um & _ & _ & _ & _ & _ & _ & Hsp1 & _ & _ & HN1 & _ & _).
  rewrite HNs in Hlx. fold total in Hlx.
  destruct (getitem_cut d (split_pt (N dm1) (split dm1)) Hls Hlu)
    as [Hto Hfrom].
  rewrite Hto in Hva. rewrite Hfrom in Htr.
  rewrite HN1, HN, Hsp1, Hsp, Hlx in Hva, Htr. fold total in Hva, Htr.
  exists d. repeat split; try done; congruence.
Qed.

(** X8. Degenerate split fractions (up to [2 ** 53] samples). With
    [split >= 1] the double product [N * split] is not below [N]: the
    validation partition is the whole dataset and the training partition is
    empty.  With [split = 0] the validation partition is empty and the
    training partition is the whole dataset. *)
Theorem degenerate_split_fractions (N_samples0 : nat)
    (domains0 : option (list (list (Q * Q)))) (split0 : Q)
    (dm0 dm1 dm2 : Quad2DObstaclesDataModule) :
  init N_DIMS N_samples0 domains0 split0 = Some dm0 →
  prepare_data rand dm0 = Some dm1 → setup dm1 = Some dm2 →
  (Z.of_nat (N dm0) <= 2 ^ 53)%Z →
  ∃ d, dataset dm1 = Some d ∧
    (1 <= split0 →
       validation_data dm2 = Some (ds_x d, ds_safe d, ds_unsafe d) ∧
       train_data dm2 = Some ([], [], [])) ∧
    (split0 == 0 →
       validation_data dm2 = Some ([], [], []) ∧
       train_data dm2 = Some (ds_x d, ds_safe d, ds_unsafe d)).
Proof.
  intros Hinit Hprep Hsetup H53.
  destruct (pipeline_cut _ _ _ _ _ _ Hinit Hprep Hsetup)
    as (d & Hd & Hlx & Hls & Hlu & Hva & Htr).
  apply init_fields in Hinit as (_ & _ & _ & _ & _ & HN & _).
  exists d. split; [done|]. rewrite HN in H53.
  set (total := (length (domains dm0) * N_samples0)%nat) in *.
  split.
  - intros Hge.
    assert (Hq : inject_Z (Z.of_nat total) <= inject_Z (Z.of_nat total) * split0).
    { pose proof (inject_nat_nonneg total) as Ht.
      assert (H : 0 <= inject_Z (Z.of_nat total) * (split0 - 1))
        by (apply Qmult_le_0_compat; [done|qlra]).
      revert Ht H. generalize (inject_Z (Z.of_nat total)). intros t Ht H. qlra. }
    pose proof (split_pt_ge total split0 (Z.of_nat total) H53 ltac:(lia) Hq) as Hk.
    assert (Hj : Py.slice_index total (split_pt total split0) = total).
    { rewrite slice_index_nonneg by lia. lia. }
    rewrite Hj in Hva, Htr.
    rewrite !take_ge in Hva by lia. rewrite !drop_ge in Htr by lia. done.
  - intros Hz.
    assert (Hq : inject_Z (Z.of_nat total) * split0 == 0) by (rewrite Hz; ring).
    assert (Hk : split_pt total split0 = 0%Z).
    { apply Z.le_antisymm.
      - apply split_pt_le; [done|lia|]. rewrite Hq. discriminate.
      - apply split_pt_ge; [done|lia|]. rewrite Hq. discriminate. }
    rewrite Hk in Hva, Htr.
    assert (Hj : Py.slice_index total 0 = 0%nat).
    { rewrite slice_index_nonneg by done. simpl. lia. }
    rewrite Hj in Hva, Htr. by rewrite !take_0 in Hva.
Qed.

(** X9. A negative split fraction counts from the end (up to [2 ** 53]
    samples). With [-(2 ** 53) < N * split <= -1], [split_pt] is [-m] with
    [m] equal to [floor(|N * split|)] or one more: the validation partition
    is the dataset without its last [m] samples and the training partition
    is the last [m] samples (everything, when [m >= N]). *)
Theorem negative_split_counts_from_the_end (N_samples0 : nat)
    (domains0 : option (list (list (Q * Q)))) (split0 : Q)
    (dm0 dm1 dm2 : Quad2DObstaclesDataModule) :
  init N_DIMS N_samples0 domains0 split0 = Some dm0 →
  prepare_data rand dm0 = Some dm1 → setup dm1 = Some dm2 →
  (Z.of_nat (N dm0) <= 2 ^ 53)%Z →
  inject_Z (Z.of_nat (N dm0)) * split0 <= -1 →
  - inject_Z (2 ^ 53) < inject_Z (Z.of_nat (N dm0)) * split0 →
  let g := Qfloor (- (inject_Z (Z.of_nat (N dm0)) * split0)) in
  let m := Z.to_nat (- split_pt (N dm0) split0) in
  let j := (N dm0 - m)%nat in
  (1 <= g ∧ split_pt (N dm0) split0 = - Z.of_nat m ∧ g <= Z.of_nat m <= g + 1)%Z ∧
  ∃ d, dataset dm1 = Some d ∧ length (ds_x d) = N dm0 ∧
    validation_data dm2 =
      Some (take j (ds_x d), take j (ds_safe d), take j (ds_unsafe d)) ∧
    train_data dm2 =
      Some (drop j (ds_x d), drop j (ds_safe d), drop j (ds_unsafe d)).
Proof.
  intros Hinit Hprep Hsetup H53 Hneg Hbig g m j.
  destruct (pipeline_cut _ _ _ _ _ _ Hinit Hprep Hsetup)
    as (d & Hd & Hlx & Hls & Hlu & Hva & Htr).
  apply init_fields in Hinit as (_ & _ & _ & _ & _ & HN & _).
  subst j m g. rewrite HN in *.
  set (total := (length (domains dm0) * N_samples0)%nat) in *.
  set (q := inject_Z (Z.of_nat total) * split0) in *.
  assert (Hfl : (1 <= Qfloor (- q))%Z).
  { rewrite <- (Qfloor_Z 1). apply Qfloor_resp_le. change (inject_Z 1) with 1. qlra. }
  assert (Hfu : (Qfloor (- q) < 2 ^ 53)%Z).
  { rewrite Zlt_Qlt. eapply Qle_lt_trans; [apply Qfloor_le|]. qlra. }
  assert (Hup : (split_pt total split0 <= - Qfloor (- q))%Z).
  { apply split_pt_le; [done|lia|]. fold q. rewrite inject_Z_opp.
    pose proof (Qfloor_le (- q)). qlra. }
  assert (Hlo : (- (Qfloor (- q) + 1) <= split_pt total split0)%Z).
  { apply split_pt_ge; [done|lia|]. fold q. rewrite inject_Z_opp.
    pose proof (Qlt_floor (- q)). qlra. }
  assert (Hj : Py.slice_index total (split_pt total split0) =
               (total - Z.to_nat (- split_pt total split0))%nat).
  { unfold Py.slice_index.
    destruct (Z.ltb_spec (split_pt total split0) 0); lia. }
  rewrite Hj in Hva, Htr.
  split; [lia|]. exists d. by repeat split.
Qed.

(** X10. The order of the calls matters and [setup] can be repeated:
    [setup] on a freshly constructed module raises (no dataset yet);
    [prepare_data] sets the dataset and changes nothing else; and [setup]
    applied to its own result returns that result again. *)
Theorem data_module_lifecycle :
  (∀ N_samples0 domains0 split0 dm0,
     init N_DIMS N_samples0 domains0 split0 = Some dm0 → setup dm0 = None) ∧
  (∀ dm0 dm1, prepare_data rand dm0 = Some dm1 →
     is_Some (dataset dm1) ∧
     N_samples dm1 = N_samples dm0 ∧ split dm1 = split dm0 ∧
     batch_size dm1 = batch_size dm0 ∧
     DataModule.n_dims dm1 = DataModule.n_dims dm0 ∧
     domains dm1 = domains dm0 ∧ N dm1 = N dm0 ∧
     train_data dm1 = train_data dm0 ∧ validation_data dm1 = validation_data dm0) ∧
  (∀ dm1 dm2, setup dm1 = Some dm2 → setup dm2 = Some dm2).
Proof.
  split; [|split].
  - intros Ns ds sp dm0 Hinit.
    apply init_fields in Hinit as (_ & _ & _ & _ & _ & _ & Hd & _).
    unfold setup. by rewrite Hd.
  - intros dm0 dm1 Hprep. unfold prepare_data in Hprep.
    destruct (sample_domains _ _ _ _ _) as [xs|]; [|discriminate]. simpl in Hprep.
    destruct (vstack xs) as [x|]; [|discriminate]. simpl in Hprep.
    destruct (safe_mask_fn x) as [sm|]; [|discriminate]. simpl in Hprep.
    destruct (unsafe_mask_fn x) as [um|]; [|discriminate]. simpl in Hprep.
    destruct (TensorDataset_new x sm um) as [d|]; [|discriminate]. simpl in Hprep.
    injection Hprep as <-. simpl. split; [eauto|]. by repeat split.
  - intros dm1 dm2 Hsetup. unfold setup in Hsetup.
    destruct (dataset dm1) as [d|] eqn:Hd; [|discriminate]. simpl in Hsetup.
    injection Hsetup as <-. unfold setup. simpl. reflexivity.
Qed.

(** X11. Degenerate sizes. An empty list of domains passes [__init__] (with
    [N = 0]) and makes [prepare_data] raise, [torch.vstack] having nothing to
    stack; with [N_samples = 0] (and the two position dimensions the masks
    read) a prepared dataset is empty and so are both partitions. *)
Theorem degenerate_sizes :
  (∀ N_samples0 split0,
     ∃ dm0, init N_DIMS N_samples0 (Some []) split0 = Some dm0 ∧
            N dm0 = 0%nat ∧ prepare_data rand dm0 = None) ∧
  (∀ dm0 dm1 dm2,
     N_samples dm0 = 0%nat → (2 <= DataModule.n_dims dm0)%nat →
     prepare_data rand dm0 = Some dm1 → setup dm1 = Some dm2 →
     dataset dm1 = Some (mkTensorDataset [] [] []) ∧
     train_data dm2 = Some ([], [], []) ∧
     validation_data dm2 = Some ([], [], [])).
Proof.
  split.
  - intros Ns sp. eexists. split; [reflexivity|]. split; reflexivity.
  - intros dm0 dm1 dm2 HNs _ Hprep Hsetup.
    apply setup_inv in Hsetup as (d & Hd & _ & _ & _ & Htr & Hva).
    destruct (prepare_data_lengths dm0 dm1 d Hprep Hd) as (Hlx & Hls & Hlu & _).
    rewrite HNs, Nat.mul_0_r in Hlx. rewrite Hlx in Hls, Hlu.
    destruct d as [x sm um]. simpl in *.
    apply nil_length_inv in Hlx, Hls, Hlu. subst x sm um.
    split; [done|]. rewrite Htr, Hva.
    unfold getitem_from, getitem_to, Py.slice_from, Py.slice_to. simpl.
    by rewrite !drop_nil, !take_nil.
Qed.

End DataModuleBehaviour.

(** ** The controller: shape of the result, calls made, errors *)

Section ControllerBehaviour.
Import Tensor Cvx ObsMPC Calls.
Context {dynamics_model : ObservableSystem} {cp : Solver} {np : Numpy}.

Lemma solve_element_events x_row batch_obs tr :
  solve_element x_row batch_obs tr =
  (element_row x_row batch_obs, tr ++ element_events x_row batch_obs).
Proof.
  destruct (solve_element_frame x_row batch_obs) as [ev Hev].
  unfold element_events. rewrite (Hev []), (Hev tr). reflexivity.
Qed.

(** One iteration: its result, the row it assigned and the calls it made. *)
Lemma loop_body_run x obs i u0 tr u1 tr1 :
  loop_body x obs i u0 tr = (Some u1, tr1) →
  ∃ batch_obs x_row r,
    obs !! i = Some batch_obs ∧ x !! i = Some x_row ∧
    element_row x_row batch_obs = Some r ∧
    (∀ row, r = Some row → length row = n_controls) ∧
    u1 = match r with None => u0 | Some row => <[i := row]> u0 end ∧
    tr1 = tr ++ element_events x_row batch_obs.
Proof.
  unfold loop_body, mbind, M_bind, or_raise, raise, mret, M_ret. intros H.
  destruct (obs !! i) as [batch_obs|]; [|discriminate].
  destruct (x !! i) as [x_row|]; [|discriminate].
  rewrite solve_element_events in H.
  destruct (element_row x_row batch_obs) as [r|] eqn:Hr; [|discriminate].
  exists batch_obs, x_row, r. split; [done|]. split; [done|]. split; [done|].
  destruct r as [row|].
  - unfold assign_row, mret, M_ret, raise in H.
    destruct (Nat.eqb_spec (length row) n_controls) as [Hlen|]; [|discriminate].
    injection H as <- <-. split; [by intros ? [= <-]|]. by split.
  - injection H as <- <-. split; [discriminate|]. by split.
Qed.

(** The whole loop over [seq s n]: the rows it leaves and the calls it made,
    element by element. *)
Lemma for_range_run x obs n : ∀ s u0 tr out tr',
  for_range (loop_body x obs) (seq s n) u0 tr = (Some out, tr') →
  (∀ i, (s <= i < s + n)%nat →
     ∃ batch_obs x_row r,
       obs !! i = Some batch_obs ∧ x !! i = Some x_row ∧
       element_row x_row batch_obs = Some r ∧
       (∀ row, r = Some row → length row = n_controls)) ∧
  tr' = tr ++ concat (zip_with element_events (take n (drop s x)) (take n (drop s obs))).
Proof.
  induction n as [|n IH]; intros s u0 tr out tr' Hrun; simpl in Hrun.
  - unfold mret, M_ret in Hrun. injection Hrun as <- <-.
    split; [intros i Hi; lia|]. simpl. by rewrite app_nil_r.
  - unfold mbind, M_bind in Hrun.
    destruct (loop_body x obs s u0 tr) as [[u1|] tr1] eqn:Hbody; [|discriminate].
    apply loop_body_run in Hbody as (bo & xr & r & Hbo & Hxr & Hr & Hlen & _ & ->).
    apply IH in Hrun as [Hrows ->]. split.
    + intros i Hi. destruct (decide (i = s)) as [->|Hne].
      * exists bo, xr, r. by repeat split.
      * apply Hrows. lia.
    + rewrite <- app_assoc. f_equal.
      rewrite (drop_S x xr s Hxr), (drop_S obs bo s Hbo). simpl. reflexivity.
Qed.

(** A run of [u] that returns: the configuration it needed, the calls it
    made and the rows it returns. *)
Lemma u_run x tr out tr' :
  u x tr = (Some out, tr') →
  n_controls ≠ 0%nat ∧
  length control_limits.1 = n_controls ∧ length control_limits.2 = n_controls ∧
  tr' = tr ++ concat (zip_with element_events x (get_observations x)) ∧
  length out = length x ∧
  ∀ i x_row, x !! i = Some x_row →
    ∃ batch_obs r,
      get_observations x !! i = Some batch_obs ∧
      element_row x_row batch_obs = Some r ∧
      (∀ row, r = Some row → length row = n_controls) ∧
      out !! i = Some (scale_clamp (default (replicate n_controls 0) r)).
Proof.
  intros Hrun.
  assert (Hval : (u x tr).1 = Some out) by (by rewrite Hrun).
  destruct (u_lookup x tr out Hval) as [Hlen Hrows].
  unfold u, mbind, M_bind in Hrun.
  destruct (for_range _ _ _ tr) as [[u1|] tr1] eqn:Hloop; [|discriminate].
  apply for_range_run in Hloop as [Hel ->].
  rewrite drop_0, firstn_all, zip_with_take_r in Hrun.
  unfold scale_column0, raise, mret, M_ret in Hrun.
  destruct (Nat.eqb_spec n_controls 0) as [|Hn0]; [discriminate|].
  destruct control_limits as [u_upper u_lower] eqn:Hlim.
  unfold clamp, raise, mret, M_ret in Hrun.
  destruct (Nat.eqb_spec (length u_lower) n_controls) as [Hl|]; [|discriminate].
  destruct (Nat.eqb_spec (length u_upper) n_controls) as [Hu|]; [|discriminate].
  simpl in Hrun. injection Hrun as _ <-.
  split; [done|]. split; [done|]. split; [done|]. split; [done|]. split; [done|].
  intros i x_row Hx.
  destruct (Hrows i x_row Hx) as (bo & r & Hbo & Hr & Hout).
  destruct (Hel i) as (bo' & xr' & r' & Hbo' & Hxr' & Hr' & Hlen').
  { apply lookup_lt_Some in Hx. lia. }
  assert (bo' = bo) by congruence. assert (xr' = x_row) by congruence. subst bo' xr'.
  assert (r' = r) by congruence. subst r'.
  exists bo, r. by repeat split.
Qed.

Lemma clamp_row_length row lo hi :
  length lo = length row → length hi = length row →
  length (clamp_row row lo hi) = length row.
Proof.
  intros Hl Hh. unfold clamp_row. rewrite length_zip_with, length_zip. lia.
Qed.

Lemma scale_clamp_length row :
  length control_limits.1 = n_controls → length control_limits.2 = n_controls →
  length row = n_controls → length (scale_clamp row) = n_controls.
Proof.
  intros H1 H2 Hrow. unfold scale_clamp.
  destruct control_limits as [u_upper u_lower]. simpl in *.
  rewrite clamp_row_length; rewrite length_alter; congruence.
Qed.

(** X12. With limit vectors of the length of the control vector, the
    result of [u] has the shape [(batch_size, n_controls)]: one row per input
    state, each with [n_controls] components, skipped elements included; and
    [u] returns only for a model with at least one control. *)
Theorem u_result_shape (x : list (list Q)) (tr : list event) (out : list (list Q)) :
  length control_limits.1 = n_controls → length control_limits.2 = n_controls →
  (u x tr).1 = Some out →
  length out = length x ∧
  Forall (λ row : list Q, length row = n_controls) out ∧
  n_controls ≠ 0%nat.
Proof.
  intros _ _ Hval. destruct (u x tr) as [o tr'] eqn:Hrun. simpl in Hval. subst o.
  apply u_run in Hrun as (Hn0 & Hl1 & Hl2 & _ & Hlen & Hrows).
  split; [done|]. split; [|done].
  apply Forall_lookup. intros i row Hi.
  destruct (lookup_lt_is_Some_2 x i) as [x_row Hx].
  { rewrite <- Hlen. by eapply lookup_lt_Some. }
  destruct (Hrows i x_row Hx) as (bo & r & _ & _ & Hr & Hout).
  rewrite Hi in Hout. injection Hout as ->.
  apply scale_clamp_length; try done.
  destruct r as [row|]; simpl; [by apply Hr|by rewrite length_replicate].
Qed.

Lemma squeeze_Some t row : squeeze t = Some row → t = [row].
Proof. destruct t as [|r [|r' t]]; simpl; congruence. Qed.

Lemma clamp_row_lookup_Some row lo hi j v l h :
  row !! j = Some v → lo !! j = Some l → hi !! j = Some h →
  clamp_row row lo hi !! j = Some (Qmin (Qmax v l) h).
Proof.
  intros Hv Hl Hh. unfold clamp_row. rewrite lookup_zip_with, Hv. simpl.
  assert (Hz : zip lo hi !! j = Some (l, h)) by (by apply lookup_zip_Some).
  by rewrite Hz.
Qed.

Lemma clamp_inside (v lo hi : Q) : lo <= v → v <= hi → Qmin (Qmax v lo) hi == v.
Proof.
  intros Hl Hh. pose proof (Q.max_l v lo Hl) as Hmax.
  rewrite Q.min_l; [exact Hmax|]. by rewrite Hmax.
Qed.

(** X13. For a batch element whose two solves are optimal, the returned row
    is the answer of the nominal controller to the shifted state with
    component 0 doubled and every component clamped,
    [min(max(., u_lower), u_upper)]; a doubled or plain component already
    between its limits is returned as it is. *)
Theorem updated_element_gets_scaled_nominal (x : list (list Q)) (tr : list event)
    (out : list (list Q)) (i : nat) (a b theta : Q) (rest : list Q)
    (batch_obs : list vec2) :
  x !! i = Some (a :: b :: theta :: rest) →
  get_observations x !! i = Some batch_obs →
  both_optimal a b theta batch_obs →
  (u x tr).1 = Some out →
  let g := x_target_global a b theta batch_obs in
  ∃ row out_row,
    u_nominal [[- g.1; - g.2; theta]] = [row] ∧ length row = n_controls ∧
    out !! i = Some out_row ∧ length out_row = n_controls ∧
    ∀ j v, row !! j = Some v →
      let scaled := if decide (j = 0%nat) then v * 2.0 else v in
      ∃ l h, control_limits.2 !! j = Some l ∧ control_limits.1 !! j = Some h ∧
             out_row !! j = Some (Qmin (Qmax scaled l) h) ∧
             (l <= scaled → scaled <= h → Qmin (Qmax scaled l) h == scaled).
Proof.
  intros Hx Hobs Hopt Hval g.
  destruct (u x tr) as [o tr'] eqn:Hrun. simpl in Hval. subst o.
  apply u_run in Hrun as (Hn0 & Hl1 & Hl2 & _ & Hlen & Hrows).
  destruct (Hrows i _ Hx) as (bo & r & Hbo & Hr & Hrlen & Hout).
  assert (bo = batch_obs) by congruence. subst bo.
  unfold element_row in Hr.
  rewrite (solve_element_update _ _ _ _ _ _ Hopt) in Hr. cbn [fst] in Hr.
  fold g in Hr.
  destruct (squeeze (u_nominal [[- g.1; - g.2; theta]])) as [row|] eqn:Hsq;
    [|discriminate].
  simpl in Hr. injection Hr as <-. apply squeeze_Some in Hsq.
  specialize (Hrlen row eq_refl). simpl in Hout.
  exists row, (scale_clamp row). split; [done|]. split; [done|]. split; [done|].
  split; [by apply scale_clamp_length|].
  intros j v Hv scaled.
  assert (Hj : (j < n_controls)%nat) by (rewrite <- Hrlen; by eapply lookup_lt_Some).
  destruct (lookup_lt_is_Some_2 control_limits.2 j) as [l Hl]; [lia|].
  destruct (lookup_lt_is_Some_2 control_limits.1 j) as [h Hh]; [lia|].
  exists l, h. split; [done|]. split; [done|]. split; [|apply clamp_inside].
  unfold scale_clamp. destruct control_limits as [u_upper u_lower]. simpl in Hl, Hh.
  apply clamp_row_lookup_Some; try done.
  subst scaled. destruct (decide (j = 0%nat)) as [->|Hne].
  - rewrite list_lookup_alter, decide_True by done. by rewrite Hv.
  - by rewrite list_lookup_alter_ne.
Qed.

Lemma count_app kind (l1 l2 : list event) :
  count kind (l1 ++ l2) = (count kind l1 + count kind l2)%nat.
Proof. unfold count. by rewrite List.filter_app, length_app. Qed.

(** The calls of one element that does not raise: one or two solves, and one
    query to the nominal controller exactly when a row is assigned. *)
Lemma element_calls x_row batch_obs r :
  element_row x_row batch_obs = Some r →
  (1 <= count is_solve (element_events x_row batch_obs) <= 2)%nat ∧
  count is_nominal (element_events x_row batch_obs) =
    (if updated x_row batch_obs then 1 else 0)%nat ∧
  Forall (planar_query (x_row !! 2%nat)) (element_events x_row batch_obs).
Proof.
  unfold updated, element_events, element_row. intros Hr.
  destruct (String.eqb (status (solve (stage1_problem batch_obs))) "optimal") eqn:E1.
  - apply optimal_eqb in E1.
    destruct x_row as [|a [|b [|theta rest]]].
    1-3: rewrite (solve_element_no_heading _ _ _ E1) in Hr by reflexivity;
         discriminate.
    destruct (String.eqb (status (solve (stage2_problem a b theta batch_obs))) "optimal") eqn:E2.
    + apply optimal_eqb in E2.
      rewrite (solve_element_update _ _ _ _ _ _ (conj E1 E2)) in Hr |- *.
      cbn [fst snd] in Hr |- *.
      destruct (squeeze _) as [row|]; [|discriminate]. simpl.
      split; [unfold count; simpl; lia|]. split; [reflexivity|].
      repeat constructor; intros q Hq; try discriminate.
      injection Hq as <-. eauto.
    + apply not_optimal_eqb in E2.
      rewrite (solve_element_stage2_skip _ _ _ _ _ _ E1 E2). simpl.
      split; [unfold count; simpl; lia|]. split; [reflexivity|].
      repeat constructor; intros q Hq; discriminate.
  - apply not_optimal_eqb in E1.
    rewrite (solve_element_stage1_skip _ _ _ E1). simpl.
    split; [unfold count; simpl; lia|]. split; [reflexivity|].
    repeat constructor; intros q Hq; discriminate.
Qed.

Lemma elements_calls (elements : list (list Q * list vec2)) :
  Forall (λ p, is_Some (element_row p.1 p.2)) elements →
  let ev := concat ((λ p, element_events p.1 p.2) <$> elements) in
  (length elements <= count is_solve ev <= 2 * length elements)%nat ∧
  count is_nominal ev = length (List.filter (λ p, updated p.1 p.2) elements) ∧
  Forall (λ e, ∃ p, p ∈ elements ∧ planar_query (p.1 !! 2%nat) e) ev.
Proof.
  induction 1 as [|p elements [r Hr] _ IH]; cbn zeta in *.
  - split; [unfold count; simpl; lia|]. split; [reflexivity|constructor].
  - destruct IH as (Hs & Hn & Hq).
    destruct (element_calls _ _ _ Hr) as (Hs1 & Hn1 & Hq1).
    rewrite fmap_cons. cbn [concat length List.filter].
    rewrite !count_app. split; [lia|]. split.
    + rewrite Hn1, Hn. by destruct (updated p.1 p.2).
    + apply Forall_app. split.
      * eapply Forall_impl; [exact Hq1|]. intros e He. exists p. split; [by left|done].
      * eapply Forall_impl; [exact Hq|]. intros e (p' & Hin & He).
        exists p'. split; [by right|done].
Qed.

(** The calls of one element that does not raise, by the statuses of its
    solves. *)
Lemma element_events_cases x_row batch_obs r :
  element_row x_row batch_obs = Some r →
  (¬ optimal (stage1_problem batch_obs) ∧
   element_events x_row batch_obs = [CallSolve (stage1_problem batch_obs)]) ∨
  (∃ a b theta rest,
     x_row = a :: b :: theta :: rest ∧ optimal (stage1_problem batch_obs) ∧
     ((¬ optimal (stage2_problem a b theta batch_obs) ∧
       element_events x_row batch_obs =
         [CallSolve (stage1_problem batch_obs);
          CallSolve (stage2_problem a b theta batch_obs)]) ∨
      (optimal (stage2_problem a b theta batch_obs) ∧
       element_events x_row batch_obs =
         [CallSolve (stage1_problem batch_obs);
          CallSolve (stage2_problem a b theta batch_obs);
          CallNominal [[- (x_target_global a b theta batch_obs).1;
                        - (x_target_global a b theta batch_obs).2; theta]]]))).
Proof.
  unfold element_events, element_row. intros Hr.
  destruct (String.eqb (status (solve (stage1_problem batch_obs))) "optimal") eqn:E1.
  - apply optimal_eqb in E1. right.
    destruct x_row as [|a [|b [|theta rest]]].
    1-3: rewrite (solve_element_no_heading _ _ _ E1) in Hr by reflexivity;
         discriminate.
    exists a, b, theta, rest. split; [done|]. split; [done|].
    destruct (String.eqb (status (solve (stage2_problem a b theta batch_obs))) "optimal") eqn:E2.
    + apply optimal_eqb in E2. right. split; [done|].
      by rewrite (solve_element_update _ _ _ _ _ _ (conj E1 E2)).
    + apply not_optimal_eqb in E2. left. split; [done|].
      by rewrite (solve_element_stage2_skip _ _ _ _ _ _ E1 E2).
  - apply not_optimal_eqb in E1. left. split; [done|].
    by rewrite (solve_element_stage1_skip _ _ _ E1).
Qed.

(** X14. The calls of a run of [u] that returns are the calls of its batch
    elements, in batch order and nothing else.  An element whose Stage 1
    solve is not optimal makes that one solve; an element whose Stage 1
    solve is optimal makes the two solves, followed by exactly one query to
    the nominal controller when the Stage 2 solve is optimal too, and by
    nothing otherwise; the query is the batch of the one state
    [(-g_0, -g_1, theta)].  So a run makes between one and two solves per
    element and at most one query per element. *)
Theorem u_calls (x : list (list Q)) (tr tr' : list event) (out : list (list Q)) :
  u x tr = (Some out, tr') →
  let elements := zip x (get_observations x) in
  let ev := concat ((λ p, element_events p.1 p.2) <$> elements) in
  tr' = tr ++ ev ∧ length elements = length x ∧
  Forall (λ p,
    let s1 := stage1_problem p.2 in
    (¬ optimal s1 ∧ element_events p.1 p.2 = [CallSolve s1]) ∨
    (∃ a b theta rest,
       p.1 = a :: b :: theta :: rest ∧ optimal s1 ∧
       let s2 := stage2_problem a b theta p.2 in
       let g := x_target_global a b theta p.2 in
       ((¬ optimal s2 ∧ element_events p.1 p.2 = [CallSolve s1; CallSolve s2]) ∨
        (optimal s2 ∧
         element_events p.1 p.2 =
           [CallSolve s1; CallSolve s2; CallNominal [[- g.1; - g.2; theta]]]))))
    elements ∧
  (length x <= count is_solve ev <= 2 * length x)%nat ∧
  (count is_nominal ev <= length x)%nat.
Proof.
  intros Hrun elements ev.
  apply u_run in Hrun as (_ & _ & _ & -> & _ & Hrows).
  assert (Hlen : length elements = length x).
  { subst elements. rewrite length_zip. apply Nat.min_l.
    destruct (Nat.le_gt_cases (length x) (length (get_observations x))) as [|Hlt];
      [done|].
    destruct (lookup_lt_is_Some_2 x (length (get_observations x)) Hlt) as [xr Hxr].
    destruct (Hrows _ _ Hxr) as (bo & _ & Hbo & _).
    apply lookup_lt_Some in Hbo. lia. }
  assert (HF : Forall (λ p, is_Some (element_row p.1 p.2)) elements).
  { apply Forall_lookup. intros i [xr bo] Hi. simpl.
    apply lookup_zip_Some in Hi as [Hxr Hbo].
    destruct (Hrows _ _ Hxr) as (bo' & r & Hbo' & Hr & _).
    assert (bo' = bo) by congruence. subst bo'. eauto. }
  destruct (elements_calls elements HF) as (Hs & Hn & Hq). fold ev in Hs, Hn, Hq.
  split.
  { f_equal. subst ev elements. rewrite zip_with_zip. f_equal.
    apply list_fmap_ext. by intros j [xr bo] _. }
  split; [done|]. split.
  { eapply Forall_impl; [exact HF|]. intros [xr bo] [r Hr]. cbn zeta. simpl.
    exact (element_events_cases xr bo r Hr). }
  rewrite <- Hlen. split; [done|].
  rewrite Hn. apply List.filter_length_le.
Qed.

Lemma solve_element_first_call x_row batch_obs tr :
  ∃ more, (solve_element x_row batch_obs tr).2 =
          tr ++ CallSolve (stage1_problem batch_obs) :: more.
Proof.
  destruct (String.eqb (status (solve (stage1_problem batch_obs))) "optimal") eqn:E1.
  - apply optimal_eqb in E1.
    destruct x_row as [|a [|b [|theta rest]]].
    1-3: rewrite (solve_element_no_heading _ _ _ E1) by reflexivity; simpl; eauto.
    destruct (solve_element_second_call a b theta rest batch_obs tr E1) as [more ->].
    eauto.
  - apply not_optimal_eqb in E1.
    rewrite (solve_element_stage1_skip _ _ _ E1). simpl. eauto.
Qed.

(** X18. Whatever the state of a batch element (even one too short to have
    a heading), its first call is the solve of the Stage 1 program, which is
    built from the observations alone: it maximises
    [log_det(P) - 100 trace(P)] under [P >> 0] followed by one constraint
    [quad_form(o, P) >= 1.25] per detected point, in order of detection;
    [K] points give [K + 1] constraints, no point leaves [P >> 0] alone, and
    [P] is its only variable. *)
Theorem first_program_of_an_element (x_row : list Q) (batch_obs : list vec2)
    (tr : list event) :
  ∃ prob more,
    (solve_element x_row batch_obs tr).2 = tr ++ CallSolve prob :: more ∧
    prob_objective prob = Maximize_log_det_minus_trace 100 ∧
    prob_constraints prob = PSD_P :: ((λ o_i, QuadFormP_ge o_i 1.25) <$> batch_obs) ∧
    length (prob_constraints prob) = S (length batch_obs) ∧
    (batch_obs = [] → prob_constraints prob = [PSD_P]) ∧
    Forall (λ v, v = P) (variables prob).
Proof.
  destruct (solve_element_first_call x_row batch_obs tr) as [more Hmore].
  exists (stage1_problem batch_obs), more. split; [exact Hmore|].
  split; [reflexivity|].
  assert (Hcs : prob_constraints (stage1_problem batch_obs) =
                PSD_P :: ((λ o_i, QuadFormP_ge o_i 1.25) <$> batch_obs))
    by apply stage1_constraints_eq.
  split; [exact Hcs|]. split; [by rewrite Hcs; simpl; rewrite length_fmap|].
  split; [intros ->; exact Hcs|].
  unfold variables. rewrite Hcs. clear Hmore Hcs.
  simpl. constructor; [done|]. constructor; [done|].
  induction batch_obs as [|o rest IH]; simpl; [constructor|].
  constructor; [done|]. exact IH.
Qed.

(** X15. When [u] raises instead of skipping: for a model without controls
    ([u[:, 0]] does not exist), for fewer observations than states
    ([obs[batch_idx]] does not exist), and for a state without heading
    component ([x[batch_idx, 2]] does not exist) whose Stage 1 solve is
    optimal. *)
Theorem u_raises (x : list (list Q)) (tr : list event) :
  (n_controls = 0%nat → (u x tr).1 = None) ∧
  ((length (get_observations x) < length x)%nat → (u x tr).1 = None) ∧
  (∀ i x_row batch_obs,
     x !! i = Some x_row → get_observations x !! i = Some batch_obs →
     (length x_row < 3)%nat → optimal (stage1_problem batch_obs) →
     (u x tr).1 = None).
Proof.
  destruct (u x tr) as [[out|] tr'] eqn:Hrun; [|by repeat split].
  apply u_run in Hrun as (Hn0 & Hl1 & Hl2 & _ & Hlen & Hrows).
  change ((Some out, tr').1) with (Some out).
  split; [done|]. split.
  - intros Hlt. exfalso.
    destruct (lookup_lt_is_Some_2 x (length (get_observations x)) Hlt) as [xr Hxr].
    destruct (Hrows _ _ Hxr) as (bo & _ & Hbo & _).
    apply lookup_lt_Some in Hbo. lia.
  - intros i x_row bo Hx Hbo Hshort Hopt. exfalso.
    destruct (Hrows _ _ Hx) as (bo' & r & Hbo' & Hr & _).
    assert (bo' = bo) by congruence. subst bo'.
    unfold element_row in Hr.
    rewrite (solve_element_no_heading _ _ _ Hopt) in Hr; [discriminate|].
    apply lookup_ge_None_2. lia.
Qed.

(** X16. The empty batch: with at least one control and limit vectors of the
    length of the control vector, [u] returns the empty batch and calls
    neither the solver nor the nominal controller. *)
Theorem u_empty_batch (tr : list event) :
  n_controls ≠ 0%nat →
  length control_limits.1 = n_controls → length control_limits.2 = n_controls →
  u [] tr = (Some [], tr).
Proof.
  intros Hn0 Hl1 Hl2. unfold u, mbind, M_bind. simpl.
  unfold mret, M_ret, scale_column0, raise.
  destruct (Nat.eqb_spec n_controls 0); [contradiction|].
  destruct control_limits as [u_upper u_lower]. simpl in Hl1, Hl2.
  unfold clamp, mret, M_ret. by rewrite Hl1, Hl2, Nat.eqb_refl.
Qed.

End ControllerBehaviour.

(** ** Further evaluations on the concrete scene *)

Section MoreEvaluations.
Import Tensor Cvx ObsMPC Calls Scene DataGeneration DataModule.

Lemma unsafe_states_keep_margin_witness :
  let x := [[-1.0; 0; 0; 0; 0; 0]] in
  let x' := [[-1.0 + -0.05; 0 + 0.05; 0; 0; 0; 0]] in
  unsafe_mask_fn x = Some [true] ∧ safe_mask_fn x' = Some [false] ∧
  -0.09 <= -0.05 ∧ -0.05 <= 0.09 ∧ -0.09 <= 0.05 ∧ 0.05 <= 0.09 ∧
  [false] !! 0%nat = Some false.
Proof.
  split; [vm_compute; reflexivity|]. split; [vm_compute; reflexivity|].
  split; [discriminate|]. split; [discriminate|]. split; [discriminate|].
  split; [discriminate|].
  apply (unsafe_states_keep_margin
           [[-1.0; 0; 0; 0; 0; 0]] [[-1.0 + -0.05; 0 + 0.05; 0; 0; 0; 0]]
           [true] [false] 0 0 (-1.0) 0 (-0.05) 0.05 [0; 0; 0; 0]);
    first [reflexivity | discriminate].
Defined.

Lemma masks_raise_iff_short_state_witness :
  safe_mask_fn [[0; 0; 0]; [1]] = None ∧ unsafe_mask_fn [[0; 0; 0]; [1]] = None.
Proof.
  destruct (masks_raise_iff_short_state [[0; 0; 0]; [1]] ltac:(discriminate))
    as [Hs Hu].
  assert (Hex : Exists (λ row : list Q, (length row < 2)%nat) [[0; 0; 0]; [1]])
    by (apply Exists_cons_tl, Exists_cons_hd; simpl; lia).
  split; [exact (proj2 Hs Hex)|exact (proj2 Hu Hex)].
Defined.

Lemma masks_of_stacked_batches_witness :
  safe_mask_fn ([[0; 0]] ++ [[5; 0]]) = Some ([true] ++ [false]) ∧
  unsafe_mask_fn ([[0; 0]] ++ [[5; 0]]) = Some ([false] ++ [true]).
Proof.
  exact (masks_of_stacked_batches [[0; 0]] [[5; 0]] ltac:(discriminate)).
Defined.

Lemma large_component_is_unsafe_witness :
  let row := [0; 0; 0; -5; 0; 0] in
  safe_mask_fn [row] = Some [false] ∧ unsafe_mask_fn [row] = Some [true] ∧
  [row] !! 0%nat = Some row ∧
  [true] !! 0%nat = Some true ∧ [false] !! 0%nat = Some false.
Proof.
  split; [vm_compute; reflexivity|]. split; [vm_compute; reflexivity|].
  split; [reflexivity|].
  apply (proj1 (large_component_is_unsafe [[0; 0; 0; -5; 0; 0]] [false] [true]
                  0 [0; 0; 0; -5; 0; 0] eq_refl eq_refl eq_refl)).
  do 3 apply Exists_cons_tl. apply Exists_cons_hd. left. discriminate.
Defined.

Lemma samples_are_stacked_by_domain_witness :
  let dm0 := mkDataModule 2 0.25 64 6 default_domains 4 None None None in
  ∃ dm1 d row,
    prepare_data rand dm0 = Some dm1 ∧ dataset dm1 = Some d ∧
    ds_x d !! (1 * 2 + 0)%nat = Some row ∧
    row !! 1%nat = Some (rescale (rand 1 0 1) (-0.5) 0.5).
Proof.
  eexists. eexists.
  assert (Hp : ∀ dm1 d,
            prepare_data rand (mkDataModule 2 0.25 64 6 default_domains 4 None None None)
              = Some dm1 → dataset dm1 = Some d →
            ∃ row, ds_x d !! (1 * 2 + 0)%nat = Some row ∧
                   row !! 1%nat = Some (rescale (rand 1 0 1) (-0.5) 0.5)).
  { intros dm1 d H1 Hd.
    exact (samples_are_stacked_by_domain
             rand (mkDataModule 2 0.25 64 6 default_domains 4 None None None)
             dm1 d H1 Hd 1%nat 0%nat 1%nat
             [(-0.5, 0.5); (-0.5, 0.5); (-0.4 * np_pi, 0.4 * np_pi);
              (-1.0, 1.0); (-1.0, 1.0); (- np_pi, np_pi)]
             (-0.5) 0.5 eq_refl ltac:(simpl; lia) ltac:(simpl; lia) eq_refl). }
  edestruct (Hp _ _ ltac:(vm_compute; reflexivity) ltac:(reflexivity))
    as (row & Hrow & Hv).
  exists row. split; [vm_compute; reflexivity|]. split; [reflexivity|].
  split; [exact Hrow|exact Hv].
Defined.

Lemma labels_follow_their_samples_witness :
  let dm0 := mkDataModule 2 0.25 64 6 default_domains 4 None None None in
  ∃ dm1 dm2 tr va,
    prepare_data rand dm0 = Some dm1 ∧ setup dm1 = Some dm2 ∧
    train_data dm2 = Some tr ∧ validation_data dm2 = Some va ∧
    safe_mask_fn tr.1.1 = Some tr.1.2 ∧ unsafe_mask_fn tr.1.1 = Some tr.2 ∧
    safe_mask_fn va.1.1 = Some va.1.2 ∧ unsafe_mask_fn va.1.1 = Some va.2.
Proof.
  intros dm0.
  eassert (Hp : prepare_data rand dm0 = Some _) by (vm_compute; reflexivity).
  match type of Hp with
  | _ = Some ?dm1 => eassert (Hs : setup dm1 = Some _) by (vm_compute; reflexivity)
  end.
  destruct (labels_follow_their_samples rand _ _ _ Hp Hs)
    as (d & tr & va & _ & Htr & Hva & _ & _ & H1 & H2 & H3 & H4).
  eexists. eexists. exists tr, va.
  split; [exact Hp|]. split; [exact Hs|]. by repeat split.
Defined.

Lemma degenerate_split_fractions_witness :
  ∃ dm0 dm1 dm2 d,
    init 6 2 None 1.5 = Some dm0 ∧
    prepare_data rand dm0 = Some dm1 ∧ setup dm1 = Some dm2 ∧
    dataset dm1 = Some d ∧ 1 <= 1.5 ∧
    validation_data dm2 = Some (ds_x d, ds_safe d, ds_unsafe d) ∧
    train_data dm2 = Some ([], [], []).
Proof.
  eassert (Hi : init 6 2 None 1.5 = Some _) by reflexivity.
  match type of Hi with
  | _ = Some ?dm0 =>
      eassert (Hp : prepare_data rand dm0 = Some _) by (vm_compute; reflexivity)
  end.
  match type of Hp with
  | _ = Some ?dm1 => eassert (Hs : setup dm1 = Some _) by (vm_compute; reflexivity)
  end.
  destruct (degenerate_split_fractions 6 rand 2 None 1.5 _ _ _ Hi Hp Hs
              ltac:(vm_compute; discriminate))
    as (d & Hd & Hbig & _).
  eexists. eexists. eexists. exists d.
  split; [exact Hi|]. split; [exact Hp|]. split; [exact Hs|]. split; [exact Hd|].
  split; [discriminate|]. apply Hbig. discriminate.
Defined.

Lemma negative_split_counts_from_the_end_witness :
  ∃ dm0 dm1 dm2 d,
    init 6 2 None (-0.5) = Some dm0 ∧
    prepare_data rand dm0 = Some dm1 ∧ setup dm1 = Some dm2 ∧
    inject_Z (Z.of_nat (N dm0)) * (-0.5) <= -1 ∧
    dataset dm1 = Some d ∧ length (ds_x d) = 4%nat ∧
    validation_data dm2 =
      Some (take 2 (ds_x d), take 2 (ds_safe d), take 2 (ds_unsafe d)) ∧
    train_data dm2 =
      Some (drop 2 (ds_x d), drop 2 (ds_safe d), drop 2 (ds_unsafe d)).
Proof.
  eassert (Hi : init 6 2 None (-0.5) = Some _) by reflexivity.
  match type of Hi with
  | _ = Some ?dm0 =>
      eassert (Hp : prepare_data rand dm0 = Some _) by (vm_compute; reflexivity)
  end.
  match type of Hp with
  | _ = Some ?dm1 => eassert (Hs : setup dm1 = Some _) by (vm_compute; reflexivity)
  end.
  destruct (negative_split_counts_from_the_end 6 rand 2 None (-0.5) _ _ _ Hi Hp Hs
              ltac:(vm_compute; discriminate) ltac:(discriminate)
              ltac:(vm_compute; reflexivity))
    as (_ & d & Hd & Hlen & Hva & Htr).
  eexists. eexists. eexists. exists d.
  split; [exact Hi|]. split; [exact Hp|]. split; [exact Hs|]. split; [discriminate|].
  split; [exact Hd|]. split; [exact Hlen|]. split; [exact Hva|exact Htr].
Defined.

Lemma u_result_shape_witness :
  let dm := system (upper, lower) in
  ∃ out,
    (@u dm (certifying_solver candidate) numpy [[0; 0; 0]; [1; 2; 0]] []).1 = Some out ∧
    length out = 2%nat ∧ Forall (λ row : list Q, length row = 2%nat) out.
Proof.
  eexists. split; [vm_compute; reflexivity|].
  edestruct (@u_result_shape (system (upper, lower)) (certifying_solver candidate)
               numpy [[0; 0; 0]; [1; 2; 0]] [] _ eq_refl eq_refl
               ltac:(vm_compute; reflexivity))
    as (Hlen & Hrows & _).
  split; [exact Hlen|exact Hrows].
Defined.

Lemma updated_element_gets_scaled_nominal_witness :
  let dm := system (upper, lower) in
  let cp := certifying_solver candidate in
  let x := [[0; 0; 0]] in
  x !! 0%nat = Some [0; 0; 0] ∧
  @get_observations dm x !! 0%nat = Some square_ahead ∧
  both_optimal (cp := cp) (np := numpy) 0 0 0 square_ahead ∧
  ∃ (out : list (list Q)) (row out_row : list Q),
    (@u dm cp numpy x []).1 = Some out ∧
    length row = 2%nat ∧ out !! 0%nat = Some out_row ∧ length out_row = 2%nat.
Proof.
  assert (Hopt : both_optimal (cp := certifying_solver candidate) (np := numpy)
                   0 0 0 square_ahead) by (split; vm_compute; reflexivity).
  split; [reflexivity|]. split; [reflexivity|]. split; [exact Hopt|].
  eexists.
  edestruct (@updated_element_gets_scaled_nominal (system (upper, lower))
               (certifying_solver candidate) numpy [[0; 0; 0]] [] _ 0 0 0 0 []
               square_ahead eq_refl eq_refl Hopt ltac:(vm_compute; reflexivity))
    as (row & out_row & _ & Hlen & Hout & Hlen' & _).
  exists row, out_row. split; [vm_compute; reflexivity|].
  split; [exact Hlen|]. split; [exact Hout|exact Hlen'].
Defined.

Lemma u_calls_witness :
  let dm := system (upper, lower) in
  let cp := certifying_solver candidate in
  ∃ out tr',
    @u dm cp numpy [[0; 0; 0]; [1; 2; 0]] [] = (Some out, tr') ∧
    count is_solve tr' = 4%nat ∧ count is_nominal tr' = 2%nat.
Proof.
  eexists. eexists.
  edestruct (@u_calls (system (upper, lower)) (certifying_solver candidate) numpy
               [[0; 0; 0]; [1; 2; 0]] [] _ _ ltac:(vm_compute; reflexivity))
    as (Htr & _).
  split; [vm_compute; reflexivity|]. split; vm_compute; reflexivity.
Defined.

Lemma u_empty_batch_witness :
  let dm := system (upper, lower) in
  @n_controls dm ≠ 0%nat ∧
  length (@control_limits dm).1 = @n_controls dm ∧
  length (@control_limits dm).2 = @n_controls dm ∧
  @u dm failing_solver numpy [] [] = (Some [], []).
Proof.
  split; [discriminate|]. split; [reflexivity|]. split; [reflexivity|].
  apply (@u_empty_batch (system (upper, lower)) failing_solver numpy []);
    [discriminate|reflexivity|reflexivity].
Defined.

End MoreEvaluations.
